(** * wayland command-line tool: port scan, server launch, app scaffolding

    A shallow embedding of [cli.py].  The program is a sequence of calls
    to the operating system (sockets, the file system, a subprocess, the
    browser, the terminal), so it is embedded in a small monad that
    threads a [world] (file system, pending terminal input, and the trace
    of external calls made so far) and propagates Python exceptions.  What
    the outside answers is fixed by an [env]: the errno [connect_ex]
    gives for each port, the installed template package, and which
    external calls fail with which exception. *)

From Stdlib Require Import ZArith String Ascii List Lia DecimalString DecimalPos DecimalZ.
From stdpp Require Import base gmap strings list.

Local Open Scope string_scope.

(** ** Python values and exceptions *)

Module Py.

(** The exception classes the program can meet.  [KeyboardInterrupt] and
    [SystemExit] derive from [BaseException] only, every other class
    derives from [Exception]. *)
Inductive exc_class :=
| CalledProcessError | OSError | ImportError | OverflowError
| EOFError | ValueError | RuntimeError | KeyboardInterrupt | SystemExit.

(** An exception instance: its class and what [str(e)] gives. *)
Record exc := Exc { exc_cls : exc_class; exc_str : string }.

Definition isinstance_Exception (e : exc) : bool :=
  match exc_cls e with
  | KeyboardInterrupt | SystemExit => false
  | _ => true
  end.

Definition isinstance_CalledProcessError (e : exc) : bool :=
  match exc_cls e with
  | CalledProcessError => true
  | _ => false
  end.

(** The result of evaluating a call: a value or a raised exception. *)
Inductive res (A : Type) :=
| Ret (a : A)
| Raise (e : exc).
Arguments Ret {A} a.
Arguments Raise {A} e.

(** [str(n)] for an [int]. *)
Definition str_int (n : Z) : string := NilZero.string_of_int (Z.to_int n).

(** Code points below 256 for which [str.isspace] holds. *)
Definition isspace (c : ascii) : bool :=
  let n := nat_of_ascii c in
  ((9 <=? n) && (n <=? 13) || (28 <=? n) && (n <=? 32)
   || (n =? 133) || (n =? 160))%nat.

(** [str.lower] on one code point below 256: the ASCII capitals and the
    Latin-1 capitals (0xC0..0xDE but the multiplication sign 0xD7) move up
    by 32. *)
Definition lower_char (c : ascii) : ascii :=
  let n := nat_of_ascii c in
  if ((65 <=? n) && (n <=? 90)
      || (192 <=? n) && (n <=? 222) && negb (n =? 215))%nat
  then ascii_of_nat (n + 32) else c.

Fixpoint lower (s : string) : string :=
  match s with
  | EmptyString => EmptyString
  | String c s' => String (lower_char c) (lower s')
  end.

Fixpoint lstrip (s : string) : string :=
  match s with
  | EmptyString => EmptyString
  | String c s' => if isspace c then lstrip s' else s
  end.

Fixpoint rstrip (s : string) : string :=
  match s with
  | EmptyString => EmptyString
  | String c s' =>
      match rstrip s' with
      | EmptyString => if isspace c then EmptyString else String c EmptyString
      | t => String c t
      end
  end.

Definition strip (s : string) : string := rstrip (lstrip s).

End Py.
Export Py.

(** ** The outside world *)

(** A file system entry. *)
Inductive node :=
| Dir
| File (content : string).

(** The external calls the program makes, in the order it makes them. *)
Inductive event :=
| EConnect (port : Z)            (* sock.connect_ex(('localhost', port)) *)
| EPrint (line : string)         (* print(line) *)
| EInput (prompt : string)       (* input(prompt) *)
| EPopen (cmd : list string)     (* subprocess.Popen(cmd) *)
| EBrowser (url : string).       (* webbrowser.open(url) *)

(** The calls that may fail for reasons outside the program (permissions,
    a full disk, a missing executable, a broken installation). *)
Inductive op :=
| OpMakedirs (path : string)
| OpImport (module : string)
| OpCopyfile (resource dst : string)
| OpAppend (path : string)
| OpPopen (cmd : list string)
| OpBrowser (url : string).

Record env := Env {
  FRAMEWORK_NAME : string;            (* config['framework_name'] *)
  getcwd : string;                    (* os.getcwd(), an absolute path *)
  connect_ex : Z -> res Z;            (* errno of connecting to localhost:port *)
  resources : string -> string -> option string;
                                      (* module, file name |-> content of
                                         that file of the package *)
  fault : op -> option exc            (* the exception an external call raises *)
}.

Record world := World {
  fs : gmap (list string) node;       (* resolved path |-> entry; [] is the root *)
  stdin : list string;                (* lines the user will type *)
  trace : list event                  (* external calls so far, oldest first *)
}.

Definition log (e : event) (w : world) : world :=
  {| fs := fs w; stdin := stdin w; trace := trace w ++ [e] |}.

Definition set_fs (m : gmap (list string) node) (w : world) : world :=
  {| fs := m; stdin := stdin w; trace := trace w |}.

(** ** The monad of the embedding

    A computation takes a world and either gives no answer ([None]: the
    port scan ran out of fuel, or the command line is outside the part of
    argparse that is described) or ends with a value or a raised exception
    and the world it leaves behind.  Nothing is rolled back when an exception is
    raised. *)

Definition M (A : Type) : Type := world -> option (res A * world).

Definition ret {A} (a : A) : M A := fun w => Some (Ret a, w).

Definition raise {A} (e : exc) : M A := fun w => Some (Raise e, w).

Definition bind {A B} (m : M A) (k : A -> M B) : M B :=
  fun w =>
    match m w with
    | None => None
    | Some (Ret a, w') => k a w'
    | Some (Raise e, w') => Some (Raise e, w')
    end.

Definition out_of_fuel {A} : M A := fun _ => None.

(** [try: body except <classes> as e: handler e]. *)
Definition try_except {A} (body : M A) (catches : exc -> bool)
    (handler : exc -> M A) : M A :=
  fun w =>
    match body w with
    | Some (Raise e, w') =>
        if catches e then handler e w' else Some (Raise e, w')
    | r => r
    end.

Declare Scope py_scope.
Delimit Scope py_scope with py.
Notation "x <- m ;; k" := (bind m (fun x => k))
  (at level 100, m at next level, right associativity) : py_scope.
Notation "m ;; k" := (bind m (fun _ => k))
  (at level 100, right associativity) : py_scope.
Local Open Scope py_scope.

Definition print (line : string) : M unit :=
  fun w => Some (Ret tt, log (EPrint line) w).

(** [input(prompt)]: the next line of [stdin], [EOFError] at its end. *)
Definition input (prompt : string) : M string :=
  fun w =>
    let w' := log (EInput prompt) w in
    match stdin w with
    | [] => Some (Raise (Exc EOFError "EOF when reading a line"), w')
    | l :: ls => Some (Ret l, {| fs := fs w'; stdin := ls; trace := trace w' |})
    end.

(** ** Paths and the file system

    Paths are the strings the program builds with [os.path.join].  The
    file system resolves a path to its list of components from the root:
    empty components and [.] are skipped, so that [a//b], [a/./b] and
    [a/b/] name the same entry.  Symbolic links are not modelled and [..]
    is an ordinary name. *)

Definition startswith_char (c : ascii) (s : string) : bool :=
  match s with
  | String c' _ => Ascii.eqb c' c
  | EmptyString => false
  end.

Fixpoint endswith_char (c : ascii) (s : string) : bool :=
  match s with
  | EmptyString => false
  | String c' EmptyString => Ascii.eqb c' c
  | String _ s' => endswith_char c s'
  end.

(** [posixpath.join(a, b)]. *)
Definition os_path_join (a b : string) : string :=
  if startswith_char "/" b then b
  else if String.eqb a "" || endswith_char "/" a then a ++ b
  else a ++ "/" ++ b.

(** [s.split('/')]. *)
Fixpoint split_slash (s : string) : list string :=
  match s with
  | EmptyString => [EmptyString]
  | String c s' =>
      if Ascii.eqb c "/" then EmptyString :: split_slash s'
      else match split_slash s' with
           | [] => [String c EmptyString]
           | x :: xs => String c x :: xs
           end
  end.

Definition is_name (c : string) : bool :=
  negb (String.eqb c "" || String.eqb c ".").

Definition resolve (path : string) : list string :=
  List.filter is_name (split_slash path).

(** The root always exists and is a directory. *)
Definition lookup_path (m : gmap (list string) node) (p : list string) : option node :=
  match p with
  | [] => Some Dir
  | _ => m !! p
  end.

Definition errno_msg (code what path : string) : string :=
  "[Errno " ++ code ++ "] " ++ what ++ ": '" ++ path ++ "'".

(** [os.makedirs(path, exist_ok=True)] below the directory [at]: walk down
    [rest], creating each missing directory.  A file in the way stops the
    walk; what was created before it stays. *)
Fixpoint makedirs_from (path : string) (at_ rest : list string)
    (m : gmap (list string) node) : res unit * gmap (list string) node :=
  match rest with
  | [] => (Ret tt, m)
  | c :: rest' =>
      let q := (at_ ++ [c])%list in
      match m !! q with
      | Some (File _) =>
          (Raise (Exc OSError
             (match rest' with
              | [] => errno_msg "17" "File exists" path
              | _ => errno_msg "20" "Not a directory" path
              end)), m)
      | Some Dir => makedirs_from path q rest' m
      | None => makedirs_from path q rest' (<[q := Dir]> m)
      end
  end.

(** Opening [path] for writing and storing [new old], where [old] is what
    the file held, if it existed. *)
Definition write_file (path : string) (new : option string -> string)
    (m : gmap (list string) node) : res (gmap (list string) node) :=
  let p := resolve path in
  match p with
  | [] => Raise (Exc OSError (errno_msg "21" "Is a directory" path))
  | _ =>
      match lookup_path m (removelast p) with
      | Some Dir =>
          match m !! p with
          | Some Dir => Raise (Exc OSError (errno_msg "21" "Is a directory" path))
          | Some (File old) => Ret (<[p := File (new (Some old))]> m)
          | None => Ret (<[p := File (new None)]> m)
          end
      | Some (File _) => Raise (Exc OSError (errno_msg "20" "Not a directory" path))
      | None => Raise (Exc OSError (errno_msg "2" "No such file or directory" path))
      end
  end.

Definition nl : string := String (ascii_of_nat 10) EmptyString.

Section Cli.

Context (E : env).

Local Open Scope Z_scope.

(** ** Port scan *)

(** [sock.connect_ex(('localhost', port))] on a fresh socket. *)
Definition sock_connect_ex (port : Z) : M Z :=
  fun w => Some (connect_ex E port, log (EConnect port) w).

Definition is_port_in_use (port : Z) : M bool :=
  errno <- sock_connect_ex port ;;
  ret (errno =? 0).

(** One unit of fuel pays for one evaluation of the loop condition. *)
Fixpoint find_next_available_port (fuel : nat) (starting_port : Z) : M Z :=
  match fuel with
  | O => out_of_fuel
  | S fuel' =>
      in_use <- is_port_in_use starting_port ;;
      if in_use then find_next_available_port fuel' (starting_port + 1)
      else ret starting_port
  end.

(** What one probe of [port] answers, apart from the trace it leaves. *)
Definition port_status (port : Z) : res bool :=
  match connect_ex E port with
  | Ret errno => Ret (errno =? 0)
  | Raise e => Raise e
  end.

(** The ports [p], [p+1], ..., [p+n-1]. *)
Fixpoint ports_from (p : Z) (n : nat) : list Z :=
  match n with
  | O => []
  | S n' => p :: ports_from (p + 1) n'
  end.

Definition probes (p : Z) (n : nat) : list event := map EConnect (ports_from p n).

Definition log_all (es : list event) (w : world) : world :=
  {| fs := fs w; stdin := stdin w; trace := trace w ++ es |}.

(** [q] is the first port from [p] on that is not in use, and every port
    before it answered "in use". *)
Definition first_free (p q : Z) : Prop :=
  p <= q /\ port_status q = Ret false /\
  forall r, p <= r < q -> port_status r = Ret true.

(** ** Development server *)

(** [subprocess.Popen(cmd)]: the call is recorded, then it fails or not. *)
Definition subprocess_Popen (cmd : list string) : M unit :=
  fun w =>
    match fault E (OpPopen cmd) with
    | Some e => Some (Raise e, log (EPopen cmd) w)
    | None => Some (Ret tt, log (EPopen cmd) w)
    end.

Definition webbrowser_open (url : string) : M unit :=
  fun w =>
    match fault E (OpBrowser url) with
    | Some e => Some (Raise e, log (EBrowser url) w)
    | None => Some (Ret tt, log (EBrowser url) w)
    end.

Definition uvicorn_cmd (port : Z) : list string :=
  ["uvicorn"; "app:app"; "--reload"; "--port"; str_int port].

Definition localhost_url (port : Z) : string := "http://localhost:" ++ str_int port.

(** The [if] block of lines 35-43 leaves the port to serve on, or [None]
    where the source returns early. *)
Definition run_uvicorn (fuel : nat) (port : Z) : M unit :=
  try_except
    (in_use <- is_port_in_use port ;;
     chosen <-
       (if in_use : bool then
          print ("Port " ++ str_int port ++ " is already in use.") ;;
          reply <- input ("Do you want to use the next available port (starting from "
                          ++ str_int (port + 1) ++ ")? (y/n): ") ;;
          let response := lower (strip reply) in
          if String.eqb response "y" then
            port' <- find_next_available_port fuel (port + 1) ;;
            print ("Using port " ++ str_int port' ++ " instead.") ;;
            ret (Some port')
          else
            print "User declined to use another port. Exiting." ;;
            ret None
        else ret (Some port)) ;;
     match chosen with
     | None => ret tt
     | Some port =>
         print ("Starting Uvicorn on port " ++ str_int port ++ "...") ;;
         subprocess_Popen (uvicorn_cmd port) ;;
         let url := localhost_url port in
         print ("Opening " ++ url ++ " in your default browser") ;;
         webbrowser_open url
     end)
    isinstance_CalledProcessError
    (fun e => print ("An error occurred while running Uvicorn: " ++ exc_str e)).

(** ** Scaffolding *)

Definition MODULE_NAME : string := lower (FRAMEWORK_NAME E).

Definition os_path_exists (path : string) : M bool :=
  fun w => Some (Ret (bool_decide (is_Some (lookup_path (fs w) (resolve path)))), w).

Definition os_makedirs (path : string) : M unit :=
  fun w =>
    match fault E (OpMakedirs path) with
    | Some e => Some (Raise e, w)
    | None =>
        let '(r, m) := makedirs_from path [] (resolve path) (fs w) in
        Some (r, set_fs m w)
    end.

(** [importlib.import_module(module)]; the module object is stood for by
    its name. *)
Definition importlib_import_module (module : string) : M string :=
  fun w =>
    match fault E (OpImport module) with
    | Some e => Some (Raise e, w)
    | None => Some (Ret module, w)
    end.

(** [shutil.copyfile(importlib.resources.files(module) / file, dst)]. *)
Definition shutil_copyfile (module file dst : string) : M unit :=
  fun w =>
    match fault E (OpCopyfile file dst) with
    | Some e => Some (Raise e, w)
    | None =>
        match resources E module file with
        | None =>
            Some (Raise (Exc OSError (errno_msg "2" "No such file or directory" file)), w)
        | Some content =>
            match write_file dst (fun _ => content) (fs w) with
            | Ret m => Some (Ret tt, set_fs m w)
            | Raise e => Some (Raise e, w)
            end
        end
    end.

(** [with open(path, 'a') as f: f.write(data)]. *)
Definition append_text (path data : string) : M unit :=
  fun w =>
    match fault E (OpAppend path) with
    | Some e => Some (Raise e, w)
    | None =>
        match write_file path (fun old => default "" old ++ data) (fs w) with
        | Ret m => Some (Ret tt, set_fs m w)
        | Raise e => Some (Raise e, w)
        end
    end.

Definition app_settings (name : string) : string :=
  nl ++ "# App-specific settings" ++ nl ++ "APP_NAME = '" ++ name ++ "'" ++ nl.

Definition create_app_directory (name : string) : M unit :=
  let directory_path := os_path_join (getcwd E) name in
  present <- os_path_exists directory_path ;;
  if present : bool then
    print "app name already exists at this directory"
  else
    try_except
      (os_makedirs directory_path ;;
       TEMPLATES_MODULE <- importlib_import_module (MODULE_NAME ++ ".templates") ;;
       let new_settings_path := os_path_join directory_path "settings.py" in
       shutil_copyfile TEMPLATES_MODULE "settings.py" new_settings_path ;;
       append_text new_settings_path (app_settings name) ;;
       let new_main_path := os_path_join directory_path "main.py" in
       shutil_copyfile TEMPLATES_MODULE "main.py" new_main_path ;;
       let new_app_path := os_path_join directory_path "app.py" in
       shutil_copyfile TEMPLATES_MODULE "app.py" new_app_path ;;
       let app_dir := os_path_join directory_path "app" in
       os_makedirs app_dir ;;
       let routes_dir := os_path_join app_dir "routes" in
       os_makedirs routes_dir ;;
       let static_dir := os_path_join app_dir "static" in
       os_makedirs static_dir ;;
       let new_index_path := os_path_join routes_dir "index.py" in
       shutil_copyfile TEMPLATES_MODULE "index.py" new_index_path ;;
       let new_index_html_path := os_path_join static_dir "index.html" in
       shutil_copyfile TEMPLATES_MODULE "index.html" new_index_html_path ;;
       let new_logo_path := os_path_join static_dir "logo.png" in
       shutil_copyfile TEMPLATES_MODULE "logo.png" new_logo_path ;;
       print ("Created a new " ++ FRAMEWORK_NAME E ++ " app at " ++ directory_path))
      isinstance_Exception
      (fun e => print ("An error occurred while creating the directory: " ++ exc_str e)).

(** ** Command line *)

(** What [parser.parse_args()] returns. *)
Record Namespace := Args {
  command : string;
  name : option string;   (* [None] when the optional positional is absent *)
  port : Z
}.

Inductive scanned :=
| Scanned (positionals : list string) (port : Z)
| Usage          (* argparse reports an error and exits with status 2 *)
| Unmodelled.    (* outside the part of argparse described here *)

(** The command lines described: plain words (not starting with [-]),
    at most one block of them, and [--port N] pairs with [N] written in
    decimal digits before or after that block.  [after] says that an
    option followed the block of words. *)
Fixpoint scan_args (argv : list string) (after : bool)
    (positionals : list string) (port : Z) : scanned :=
  match argv with
  | [] => Scanned positionals port
  | a :: rest =>
      if String.eqb a "--port" then
        match rest with
        | [] => Usage
        | v :: rest' =>
            match NilZero.uint_of_string v with
            | Some d =>
                scan_args rest' (negb (bool_decide (positionals = []))) positionals
                          (Z.of_uint d)
            | None => Unmodelled
            end
        end
      else if startswith_char "-" a then Unmodelled
      else if after then Unmodelled
      else scan_args rest false (positionals ++ [a])%list port
  end.

Definition SystemExit_2 : exc := Exc SystemExit "2".

(** [parse_args] of the parser of lines 120-125: [command], then the
    optional [name], and [--port] with default 8000. *)
Definition parse_args (argv : list string) : M Namespace :=
  match scan_args argv false [] 8000 with
  | Scanned [c] p => ret {| command := c; name := None; port := p |}
  | Scanned [c; n] p => ret {| command := c; name := Some n; port := p |}
  | Scanned _ _ => raise SystemExit_2
  | Usage => raise SystemExit_2
  | Unmodelled => fun _ => None
  end.

(** Truth value of [args.name]: present and not the empty string. *)
Definition truthy (o : option string) : bool :=
  match o with
  | Some s => negb (String.eqb s "")
  | None => false
  end.

Definition main (fuel : nat) (argv : list string) : M unit :=
  args <- parse_args argv ;;
  if String.eqb (command args) "new" then
    if truthy (name args) then
      create_app_directory (default "" (name args))
    else
      print ("Please provide a name for the new app. Usage: '"
             ++ lower (FRAMEWORK_NAME E) ++ " new <name>'")
  else if String.eqb (command args) "run" then
    run_uvicorn fuel (port args)
  else
    print ("Invalid command. Use '" ++ lower (FRAMEWORK_NAME E)
           ++ " new <name>' to create a new app or '" ++ lower (FRAMEWORK_NAME E)
           ++ " run' to run the development server.").

End Cli.

Arguments Args _ _ _ : clear implicits.

(** ** Concrete worlds used to run the embedding *)

Module Demo.

Local Open Scope Z_scope.

(** The framework is installed with its six templates; port 8000 is taken
    and every other port refuses the connection (errno 111). *)
Definition E : env :=
  {| FRAMEWORK_NAME := "Wayland";
     getcwd := "/home/dev";
     connect_ex := fun p => if p =? 8000 then Ret 0 else Ret 111;
     resources := fun m f =>
       if String.eqb m "wayland.templates" then Some ("<" ++ f ++ ">") else None;
     fault := fun _ => None |}.

(** Every port answers, whatever its number. *)
Definition E_busy : env :=
  {| FRAMEWORK_NAME := "Wayland";
     getcwd := "/home/dev";
     connect_ex := fun _ => Ret 0;
     resources := fun _ _ => None;
     fault := fun _ => None |}.

(** CPython's socket layer: a port outside 0..65535 is refused with
    [OverflowError] before any connection is tried; inside the range
    everything is taken. *)
Definition E_full : env :=
  {| FRAMEWORK_NAME := "Wayland";
     getcwd := "/home/dev";
     connect_ex := fun p =>
       if (0 <=? p) && (p <=? 65535) then Ret 0
       else Raise (Exc OverflowError "connect_ex(): port must be 0-65535.");
     resources := fun _ _ => None;
     fault := fun _ => None |}.

Definition w : world :=
  {| fs := {[ ["home"] := Dir; ["home"; "dev"] := Dir ]};
     stdin := [];
     trace := [] |}.

(** A file called [myapp] is already in the working directory. *)
Definition w_taken : world :=
  {| fs := {[ ["home"] := Dir; ["home"; "dev"] := Dir;
              ["home"; "dev"; "myapp"] := File "notes" ]};
     stdin := [];
     trace := [] |}.

(** The disk fills up while [main.py] is copied. *)
Definition E_failing : env :=
  {| FRAMEWORK_NAME := "Wayland";
     getcwd := "/home/dev";
     connect_ex := fun _ => Ret 111;
     resources := fun m f =>
       if String.eqb m "wayland.templates" then Some ("<" ++ f ++ ">") else None;
     fault := fun o =>
       match o with
       | OpCopyfile f _ =>
           if String.eqb f "main.py"
           then Some (Exc OSError "[Errno 28] No space left on device") else None
       | _ => None
       end |}.

(** What is on disk when that copy fails: the new directory and its
    [settings.py]. *)
Definition w_partial : world :=
  {| fs := <[ ["home"; "dev"; "myapp"; "settings.py"] :=
               File ("<settings.py>" ++ app_settings "myapp") ]>
           (<[ ["home"; "dev"; "myapp"] := Dir ]> (fs w));
     stdin := [];
     trace := [] |}.

(** What a successful [new myapp] leaves in [w]. *)
Definition w_created : world :=
  {| fs :=
       <[ ["home"; "dev"; "myapp"] := Dir ]>
       (<[ ["home"; "dev"; "myapp"; "settings.py"] :=
             File ("<settings.py>" ++ nl ++ "# App-specific settings" ++ nl
                   ++ "APP_NAME = 'myapp'" ++ nl) ]>
       (<[ ["home"; "dev"; "myapp"; "main.py"] := File "<main.py>" ]>
       (<[ ["home"; "dev"; "myapp"; "app.py"] := File "<app.py>" ]>
       (<[ ["home"; "dev"; "myapp"; "app"] := Dir ]>
       (<[ ["home"; "dev"; "myapp"; "app"; "routes"] := Dir ]>
       (<[ ["home"; "dev"; "myapp"; "app"; "static"] := Dir ]>
       (<[ ["home"; "dev"; "myapp"; "app"; "routes"; "index.py"] :=
             File "<index.py>" ]>
       (<[ ["home"; "dev"; "myapp"; "app"; "static"; "index.html"] :=
             File "<index.html>" ]>
       (<[ ["home"; "dev"; "myapp"; "app"; "static"; "logo.png"] :=
             File "<logo.png>" ]> (fs w))))))))));
     stdin := [];
     trace := [EPrint "Created a new Wayland app at /home/dev/myapp"] |}.

Definition typing (line : string) : world :=
  {| fs := fs w; stdin := [line]; trace := [] |}.

End Demo.

(** ** Vocabulary of the statements *)

(** Every external call a computation makes satisfies [ok]. *)
Definition emits_only {A} (ok : event -> Prop) (m : M A) : Prop :=
  forall w r w', m w = Some (r, w') ->
    exists es, trace w' = (trace w ++ es)%list /\ Forall ok es.

(** A subprocess, if this call starts one, is started with [--reload]. *)
Definition reloading (e : event) : Prop :=
  match e with
  | EPopen cmd => In "--reload" cmd
  | _ => True
  end.

(** This call starts no process and opens no browser. *)
Definition quiet (e : event) : Prop :=
  match e with
  | EPopen _ | EBrowser _ => False
  | _ => True
  end.

(** The effect of a successful [os.makedirs]: every directory on the way
    from [at_] down [rest] is there. *)
Fixpoint with_dirs (at_ rest : list string) (m : gmap (list string) node)
    : gmap (list string) node :=
  match rest with
  | [] => m
  | c :: rest' => with_dirs (at_ ++ [c]) rest' (<[(at_ ++ [c])%list := Dir]> m)
  end.

(** Every entry lies in a directory: the shape of a real file system. *)
Definition tree_shaped (m : gmap (list string) node) : bool :=
  forallb (fun '(p, _) =>
             match lookup_path m (removelast p) with
             | Some Dir => true
             | _ => false
             end)
          (map_to_list m).

(** The template tree, by paths relative to the new directory. *)
Definition app_tree (settings main app index html logo : string)
    : gmap (list string) node :=
  <[ ["app"; "static"; "logo.png"] := File logo ]>
  (<[ ["app"; "static"; "index.html"] := File html ]>
  (<[ ["app"; "routes"; "index.py"] := File index ]>
  (<[ ["app"; "static"] := Dir ]>
  (<[ ["app"; "routes"] := Dir ]>
  (<[ ["app"] := Dir ]>
  (<[ ["app.py"] := File app ]>
  (<[ ["main.py"] := File main ]>
  (<[ ["settings.py"] := File settings ]> ∅)))))))).

(** The body of the [try] of [create_app_directory], call by call. *)
Fixpoint run_steps (steps : list (M unit)) : M unit :=
  match steps with
  | [] => ret tt
  | s :: rest => s ;; run_steps rest
  end.

Definition scaffold_steps (E : env) (name : string) : list (M unit) :=
  let directory_path := os_path_join (getcwd E) name in
  let TEMPLATES_MODULE := MODULE_NAME E ++ ".templates" in
  let app_dir := os_path_join directory_path "app" in
  let routes_dir := os_path_join app_dir "routes" in
  let static_dir := os_path_join app_dir "static" in
  [ os_makedirs E directory_path;
    (importlib_import_module E TEMPLATES_MODULE ;; ret tt);
    shutil_copyfile E TEMPLATES_MODULE "settings.py"
      (os_path_join directory_path "settings.py");
    append_text E (os_path_join directory_path "settings.py") (app_settings name);
    shutil_copyfile E TEMPLATES_MODULE "main.py" (os_path_join directory_path "main.py");
    shutil_copyfile E TEMPLATES_MODULE "app.py" (os_path_join directory_path "app.py");
    os_makedirs E app_dir;
    os_makedirs E routes_dir;
    os_makedirs E static_dir;
    shutil_copyfile E TEMPLATES_MODULE "index.py" (os_path_join routes_dir "index.py");
    shutil_copyfile E TEMPLATES_MODULE "index.html"
      (os_path_join static_dir "index.html");
    shutil_copyfile E TEMPLATES_MODULE "logo.png" (os_path_join static_dir "logo.png");
    print ("Created a new " ++ FRAMEWORK_NAME E ++ " app at " ++ directory_path) ].

(** A call on the file system: it always answers, is not seen on the
    trace, and takes nothing away when it fails. *)
Definition fs_step (s : M unit) : Prop :=
  forall w, exists r w',
    s w = Some (r, w') /\ trace w' = trace w /\ stdin w' = stdin w /\
    (forall e, r = Raise e -> fs w ⊆ fs w').

(** ** Further worlds: failing launches, a half-made application *)

Module Cases.

Local Open Scope Z_scope.

(** [uvicorn] is not installed: [Popen] fails with [FileNotFoundError]. *)
Definition E_no_uvicorn : env :=
  {| FRAMEWORK_NAME := "Wayland";
     getcwd := "/home/dev";
     connect_ex := fun p => if p =? 8000 then Ret 0 else Ret 111;
     resources := fun _ _ => None;
     fault := fun o =>
       match o with
       | OpPopen _ =>
           Some (Exc OSError "[Errno 2] No such file or directory: 'uvicorn'")
       | _ => None
       end |}.

(** No browser can be opened. *)
Definition E_no_browser : env :=
  {| FRAMEWORK_NAME := "Wayland";
     getcwd := "/home/dev";
     connect_ex := fun p => if p =? 8000 then Ret 0 else Ret 111;
     resources := fun _ _ => None;
     fault := fun o =>
       match o with
       | OpBrowser _ => Some (Exc RuntimeError "Browser error")
       | _ => None
       end |}.

(** [Demo.w] once the directory of [myapp] is made. *)
Definition w_directory : world :=
  {| fs := <[ ["home"; "dev"; "myapp"] := Dir ]> (fs Demo.w);
     stdin := [];
     trace := [] |}.

(** What the run of [Demo.E_failing] leaves behind. *)
Definition w_failed : world :=
  {| fs := fs Demo.w_partial;
     stdin := [];
     trace := [EPrint "An error occurred while creating the directory: [Errno 28] No space left on device"] |}.

End Cases.

(** ** Vocabulary of the further properties *)

(** A computation that leaves the file system as it found it. *)
Definition preserves_fs {A} (m : M A) : Prop :=
  forall w r w', m w = Some (r, w') -> fs w' = fs w.


(** A call that never replaces or removes a directory. *)
Definition keeps_dirs (s : M unit) : Prop :=
  forall w r w' p, s w = Some (r, w') ->
    fs w !! p = Some Dir -> fs w' !! p = Some Dir.

(** A string of whitespace only. *)
Fixpoint blank (s : string) : bool :=
  match s with
  | EmptyString => true
  | String c s' => isspace c && blank s'
  end.

(** * Properties *)

Section ScanFacts.

Context (E : env).

Local Open Scope Z_scope.

Lemma log_all_cons e es w : log_all (e :: es) w = log_all es (log e w).
Proof. unfold log_all, log; simpl. by rewrite <- app_assoc. Qed.

Lemma log_all_nil w : log_all [] w = w.
Proof. destruct w; unfold log_all; simpl. by rewrite app_nil_r. Qed.

Lemma log_all_snoc es e w : log_all (es ++ [e]) w = log e (log_all es w).
Proof. unfold log_all, log; simpl. by rewrite app_assoc. Qed.

Lemma log_all_app es es' w : log_all (es ++ es') w = log_all es' (log_all es w).
Proof. unfold log_all; simpl. by rewrite app_assoc. Qed.

Lemma ports_from_snoc p n :
  ports_from p (S n) = (ports_from p n ++ [p + Z.of_nat n])%list.
Proof.
  revert p; induction n as [|n IH]; intros p.
  - simpl. by rewrite Z.add_0_r.
  - change (ports_from p (S (S n))) with (p :: ports_from (p + 1) (S n)).
    rewrite IH. change (ports_from p (S n)) with (p :: ports_from (p + 1) n).
    rewrite <- app_comm_cons. rewrite Nat2Z.inj_succ.
    by replace (p + 1 + Z.of_nat n) with (p + Z.succ (Z.of_nat n)) by lia.
Qed.

Lemma probes_snoc p n :
  probes p (S n) = (probes p n ++ [EConnect (p + Z.of_nat n)])%list.
Proof. unfold probes. by rewrite ports_from_snoc, map_app. Qed.

(** One turn of the loop, by what the probe answers. *)
Lemma find_next_available_port_step fuel p w :
  find_next_available_port E (S fuel) p w =
  match port_status E p with
  | Ret true => find_next_available_port E fuel (p + 1) (log (EConnect p) w)
  | Ret false => Some (Ret p, log (EConnect p) w)
  | Raise e => Some (Raise e, log (EConnect p) w)
  end.
Proof.
  simpl. unfold bind, is_port_in_use, bind, sock_connect_ex, port_status, ret.
  destruct (connect_ex E p) as [errno|e]; [|done].
  by destruct (errno =? 0).
Qed.

(** Over a run of busy ports the scan only moves on. *)
Lemma find_next_available_port_skip n : forall p w fuel,
  (forall r, p <= r < p + Z.of_nat n -> port_status E r = Ret true) ->
  find_next_available_port E (n + fuel) p w =
  find_next_available_port E fuel (p + Z.of_nat n) (log_all (probes p n) w).
Proof.
  induction n as [|n IH]; intros p w fuel Hbusy.
  - simpl. by rewrite Z.add_0_r, log_all_nil.
  - change (S n + fuel)%nat with (S (n + fuel)).
    rewrite find_next_available_port_step, (Hbusy p) by lia.
    rewrite IH by (intros r Hr; apply Hbusy; lia).
    unfold probes. simpl ports_from. simpl map. rewrite log_all_cons.
    rewrite Nat2Z.inj_succ.
    by replace (p + 1 + Z.of_nat n) with (p + Z.succ (Z.of_nat n)) by lia.
Qed.

(** More fuel does not change an answer. *)
Lemma find_next_available_port_fuel_mono fuel : forall fuel' p w x,
  (fuel <= fuel')%nat ->
  find_next_available_port E fuel p w = Some x ->
  find_next_available_port E fuel' p w = Some x.
Proof.
  induction fuel as [|fuel IH]; intros fuel' p w x Hle Hrun; [done|].
  destruct fuel' as [|fuel']; [lia|].
  rewrite find_next_available_port_step in *.
  destruct (port_status E p) as [[]|]; [|done..].
  apply IH; [lia|done].
Qed.

(** Whatever the scan returns is the first free port, and the trace shows
    the probes that led to it. *)
Lemma find_next_available_port_returns fuel : forall p q w w',
  find_next_available_port E fuel p w = Some (Ret q, w') ->
  first_free E p q /\ w' = log_all (probes p (S (Z.to_nat (q - p)))) w.
Proof.
  induction fuel as [|fuel IH]; intros p q w w' Hrun; [done|].
  rewrite find_next_available_port_step in Hrun.
  destruct (port_status E p) as [[]|] eqn:Hp; [| |done].
  - apply IH in Hrun as [(Hle & Hq & Hbusy) ->]. split.
    + split; [lia|]. split; [done|]. intros r Hr.
      destruct (decide (r = p)) as [->|]; [done|]. apply Hbusy; lia.
    + replace (Z.to_nat (q - p)) with (S (Z.to_nat (q - (p + 1)))) by lia.
      unfold probes at 2. simpl ports_from. simpl map.
      by rewrite log_all_cons.
  - inversion Hrun; subst. split.
    + split; [lia|]. split; [done|]. intros; lia.
    + rewrite Z.sub_diag. simpl. unfold probes; simpl.
      by rewrite log_all_cons, log_all_nil.
Qed.

(** With every port from [p] on busy the scan never answers. *)
Lemma find_next_available_port_diverges fuel : forall p w,
  (forall r, p <= r -> port_status E r = Ret true) ->
  find_next_available_port E fuel p w = None.
Proof.
  induction fuel as [|fuel IH]; intros p w Hbusy; [done|].
  rewrite find_next_available_port_step, (Hbusy p) by lia.
  apply IH. intros r Hr. apply Hbusy. lia.
Qed.

(** The scan answers as soon as some port is not reported in use. *)
Lemma find_next_available_port_answers n : forall p q w,
  p <= q -> Z.to_nat (q - p) = n -> port_status E q <> Ret true ->
  exists r w', find_next_available_port E (S n) p w = Some (r, w').
Proof.
  induction n as [|n IH]; intros p q w Hle Hn Hq;
    rewrite find_next_available_port_step.
  - assert (q = p) as -> by lia.
    destruct (port_status E p) as [[]|]; [done|eauto..].
  - destruct (port_status E p) as [[]|]; [|eauto..].
    apply (IH (p + 1) q); [lia|lia|done].
Qed.

End ScanFacts.

(** C1. For every starting port [p], the scan goes forward one port at a
    time and returns the smallest port [q >= p] that is not in use: when
    [q] is free and every port of [p..q-1] is in use, any run with enough
    fuel returns [q] after probing exactly [p], [p+1], ..., [q] in this
    order; and a run cannot return anything else than that port. *)
Theorem find_next_available_port_first_free (E : env) (p q : Z) (w : world) :
  (first_free E p q ->
   forall fuel, (Z.to_nat (q - p) < fuel)%nat ->
     find_next_available_port E fuel p w =
     Some (Ret q, log_all (probes p (S (Z.to_nat (q - p)))) w))
  /\ (forall fuel w',
        find_next_available_port E fuel p w = Some (Ret q, w') ->
        first_free E p q /\
        (forall r, (p <= r < q)%Z ->
           In (EConnect r) (probes p (S (Z.to_nat (q - p))))) /\
        w' = log_all (probes p (S (Z.to_nat (q - p)))) w).
Proof.
  split.
  - intros (Hle & Hq & Hbusy) fuel Hfuel.
    replace fuel with (Z.to_nat (q - p) + S (fuel - S (Z.to_nat (q - p))))%nat by lia.
    rewrite find_next_available_port_skip
      by (intros r Hr; apply Hbusy; lia).
    rewrite find_next_available_port_step.
    replace (p + Z.of_nat (Z.to_nat (q - p)))%Z with q by lia.
    rewrite Hq, probes_snoc, log_all_snoc.
    by replace (p + Z.of_nat (Z.to_nat (q - p)))%Z with q by lia.
  - intros fuel w' Hrun.
    apply find_next_available_port_returns in Hrun as [Hff ->].
    split; [done|]. split; [|done].
    intros r Hr. unfold probes. apply in_map.
    clear - Hr. remember (S (Z.to_nat (q - p))) as n eqn:Hn.
    assert (Hlt : (r < p + Z.of_nat n)%Z) by lia. clear Hn.
    revert p Hr Hlt. induction n as [|n IH]; intros p Hr Hlt; [lia|].
    simpl. destruct (decide (p = r)) as [->|]; [by left|].
    right. apply IH; lia.
Qed.

Lemma find_next_available_port_first_free_witness :
  find_next_available_port Demo.E 2 8000 Demo.w =
  Some (Ret 8001%Z, log_all [EConnect 8000; EConnect 8001] Demo.w).
Proof.
  apply (proj1 (find_next_available_port_first_free Demo.E 8000 8001 Demo.w)).
  - split; [lia|]. split; [reflexivity|].
    intros r Hr. assert (r = 8000%Z) as -> by lia. reflexivity.
  - simpl. lia.
Defined.

(** C2. The scan from [p] terminates as soon as some port [q >= p] is not
    reported in use (it is free, or the socket layer refuses it): after at
    most [q - p + 1] probes it has returned a port or raised. *)
Theorem find_next_available_port_terminates (E : env) (p q : Z) (w : world) :
  (p <= q)%Z -> port_status E q <> Ret true ->
  exists r w',
    find_next_available_port E (S (Z.to_nat (q - p))) p w = Some (r, w').
Proof.
  intros Hle Hq. by apply (find_next_available_port_answers E _ p q).
Qed.

Lemma find_next_available_port_terminates_witness :
  exists r w', find_next_available_port Demo.E 2 8000 Demo.w = Some (r, w').
Proof.
  apply (find_next_available_port_terminates Demo.E 8000 8001 Demo.w).
  - lia.
  - discriminate.
Defined.

(** The scan diverges exactly when every port from [p] on is reported in
    use; [Demo.E_busy] is such an environment. *)
Lemma find_next_available_port_all_busy fuel p w :
  find_next_available_port Demo.E_busy fuel p w = None.
Proof. by apply find_next_available_port_diverges. Qed.

(** With the port range of the socket layer, the scan needs no free port:
    past 65535 the probe raises, and the scan ends there at the latest. *)
Lemma find_next_available_port_port_range (E : env) (p : Z) (w : world) :
  (forall r, ~ (0 <= r <= 65535)%Z -> exists e, connect_ex E r = Raise e) ->
  exists r w',
    find_next_available_port E (S (Z.to_nat (65536 - p))) p w = Some (r, w').
Proof.
  intros Hrange.
  destruct (Hrange (Z.max p 65536)) as [e He]; [lia|].
  destruct (find_next_available_port_answers E (Z.to_nat (Z.max p 65536 - p))
              p (Z.max p 65536) w) as (r & w' & Hrun); [lia|done| |].
  - unfold port_status. by rewrite He.
  - exists r, w'. by replace (Z.to_nat (65536 - p))
      with (Z.to_nat (Z.max p 65536 - p)) by lia.
Qed.

Example find_next_available_port_full_range :
  exists w', find_next_available_port Demo.E_full 3 65534 Demo.w =
    Some (Raise (Exc OverflowError "connect_ex(): port must be 0-65535."), w').
Proof. eexists. reflexivity. Qed.

Section TraceFacts.

Context (E : env).

Lemma emits_only_ret {A} ok (a : A) : emits_only ok (ret a).
Proof.
  intros w r w' [= <- <-]. exists []. by rewrite app_nil_r.
Qed.

Lemma emits_only_bind {A B} ok (m : M A) (k : A -> M B) :
  emits_only ok m -> (forall a, emits_only ok (k a)) -> emits_only ok (bind m k).
Proof.
  intros Hm Hk w r w' Hrun. unfold bind in Hrun.
  destruct (m w) as [[[a|e] w1]|] eqn:Hmw; [| |done].
  - destruct (Hm _ _ _ Hmw) as (es1 & Ht1 & Hok1).
    destruct (Hk a _ _ _ Hrun) as (es2 & Ht2 & Hok2).
    exists (es1 ++ es2)%list. split.
    + by rewrite Ht2, Ht1, app_assoc.
    + by apply Forall_app.
  - injection Hrun as <- <-. destruct (Hm _ _ _ Hmw) as (es1 & Ht1 & Hok1). eauto.
Qed.

Lemma emits_only_try_except {A} ok (body : M A) catches handler :
  emits_only ok body -> (forall e, emits_only ok (handler e)) ->
  emits_only ok (try_except body catches handler).
Proof.
  intros Hb Hh w r w' Hrun. unfold try_except in Hrun.
  destruct (body w) as [[[a|e] w1]|] eqn:Hbw; [| |done].
  - injection Hrun as <- <-. eauto.
  - destruct (Hb _ _ _ Hbw) as (es1 & Ht1 & Hok1).
    destruct (catches e).
    + destruct (Hh e _ _ _ Hrun) as (es2 & Ht2 & Hok2).
      exists (es1 ++ es2)%list. split.
      * by rewrite Ht2, Ht1, app_assoc.
      * by apply Forall_app.
    + injection Hrun as <- <-. eauto.
Qed.

Lemma emits_only_one {A} ok (m : M A) ev :
  ok ev ->
  (forall w r w', m w = Some (r, w') -> trace w' = (trace w ++ [ev])%list) ->
  emits_only ok m.
Proof.
  intros Hok Hm w r w' Hrun. exists [ev]. split; [eauto|]. by constructor.
Qed.

Lemma emits_only_print ok line : ok (EPrint line) -> emits_only ok (print line).
Proof. intros Hok. apply (emits_only_one _ _ _ Hok). by intros w r w' [= <- <-]. Qed.

Lemma emits_only_input ok prompt :
  ok (EInput prompt) -> emits_only ok (input prompt).
Proof.
  intros Hok. apply (emits_only_one _ _ _ Hok). intros w r w'. unfold input.
  by destruct (stdin w); intros [= <- <-].
Qed.

Lemma emits_only_is_port_in_use ok port :
  ok (EConnect port) -> emits_only ok (is_port_in_use E port).
Proof.
  intros Hok. apply (emits_only_one _ _ _ Hok). intros w r w'.
  unfold is_port_in_use, bind, sock_connect_ex, ret.
  by destruct (connect_ex E port); intros [= <- <-].
Qed.

Lemma emits_only_find_next_available_port ok fuel : forall p,
  (forall port, ok (EConnect port)) ->
  emits_only ok (find_next_available_port E fuel p).
Proof.
  induction fuel as [|fuel IH]; intros p Hok; [done|].
  simpl. apply emits_only_bind; [by apply emits_only_is_port_in_use|].
  intros []; [by apply IH | apply emits_only_ret].
Qed.

Lemma emits_only_subprocess_Popen ok cmd :
  ok (EPopen cmd) -> emits_only ok (subprocess_Popen E cmd).
Proof.
  intros Hok. apply (emits_only_one _ _ _ Hok). intros w r w'.
  unfold subprocess_Popen. by destruct (fault E _); intros [= <- <-].
Qed.

Lemma emits_only_webbrowser_open ok url :
  ok (EBrowser url) -> emits_only ok (webbrowser_open E url).
Proof.
  intros Hok. apply (emits_only_one _ _ _ Hok). intros w r w'.
  unfold webbrowser_open. by destruct (fault E _); intros [= <- <-].
Qed.

Lemma run_uvicorn_emits_reloading fuel port :
  emits_only reloading (run_uvicorn E fuel port).
Proof.
  unfold run_uvicorn.
  apply emits_only_try_except; [|intros e; by apply emits_only_print].
  apply emits_only_bind; [by apply emits_only_is_port_in_use|]. intros in_use.
  apply emits_only_bind.
  - destruct in_use; [|apply emits_only_ret].
    apply emits_only_bind; [by apply emits_only_print|]. intros _.
    apply emits_only_bind; [by apply emits_only_input|]. intros reply. simpl.
    destruct (String.eqb _ _).
    + apply emits_only_bind; [by apply emits_only_find_next_available_port|].
      intros port'. apply emits_only_bind; [by apply emits_only_print|].
      intros _. apply emits_only_ret.
    + apply emits_only_bind; [by apply emits_only_print|].
      intros _. apply emits_only_ret.
  - intros [port'|]; [|apply emits_only_ret].
    apply emits_only_bind; [by apply emits_only_print|]. intros _.
    apply emits_only_bind.
    { apply emits_only_subprocess_Popen. simpl. tauto. }
    intros _. simpl.
    apply emits_only_bind; [by apply emits_only_print|]. intros _.
    by apply emits_only_webbrowser_open.
Qed.

End TraceFacts.

(** C6. Every development-server launch of [run_uvicorn] enables
    auto-reload: whatever the port (requested or renegotiated), the
    user's answer and the outcome, each [subprocess.Popen] call the run
    makes has [--reload] on its command line. *)
Theorem run_uvicorn_reload (E : env) (fuel : nat) (port : Z) (w w' : world)
    (r : res unit) :
  run_uvicorn E fuel port w = Some (r, w') ->
  exists es, trace w' = (trace w ++ es)%list /\
    forall cmd, In (EPopen cmd) es -> In "--reload" cmd.
Proof.
  intros Hrun.
  destruct (run_uvicorn_emits_reloading E fuel port _ _ _ Hrun) as (es & Ht & Hok).
  exists es. split; [done|]. intros cmd Hin.
  rewrite Forall_forall in Hok. apply (Hok (EPopen cmd)).
  by apply list_elem_of_In.
Qed.

Lemma run_uvicorn_reload_witness :
  exists es,
    (EPopen ["uvicorn"; "app:app"; "--reload"; "--port"; "8001"] ∈ es) /\
    forall cmd, In (EPopen cmd) es -> In "--reload" cmd.
Proof.
  destruct (run_uvicorn_reload Demo.E 5 8000 (Demo.typing "y")
              {| fs := fs Demo.w; stdin := [];
                 trace := [EConnect 8000; EPrint "Port 8000 is already in use.";
                   EInput "Do you want to use the next available port (starting from 8001)? (y/n): ";
                   EConnect 8001; EPrint "Using port 8001 instead.";
                   EPrint "Starting Uvicorn on port 8001...";
                   EPopen ["uvicorn"; "app:app"; "--reload"; "--port"; "8001"];
                   EPrint "Opening http://localhost:8001 in your default browser";
                   EBrowser "http://localhost:8001"] |}
              (Ret tt) eq_refl) as (es & Ht & Hes).
  exists es. split; [|exact Hes].
  simpl in Ht. subst es. repeat constructor.
Defined.

(** Unfolds the monad and the calls of [run_uvicorn], leaving strings,
    traces and the answers of the environment as they are. *)
Ltac run_server :=
  cbv beta iota zeta delta [run_uvicorn try_except bind is_port_in_use
    sock_connect_ex print input ret log subprocess_Popen webbrowser_open
    uvicorn_cmd localhost_url].

Section ServerFacts.

Context (E : env).

Lemma port_status_false port :
  port_status E port = Ret false ->
  exists errno, connect_ex E port = Ret errno /\ (errno =? 0)%Z = false.
Proof.
  unfold port_status. destruct (connect_ex E port) as [errno|]; [|done].
  intros [= H]. eauto.
Qed.

Lemma port_status_true port :
  port_status E port = Ret true -> connect_ex E port = Ret 0%Z.
Proof.
  unfold port_status. destruct (connect_ex E port) as [errno|]; [|done].
  intros [= H]. f_equal. lia.
Qed.

(** When the user accepts, the server goes to the port the scan returns. *)
Lemma run_uvicorn_accepted fuel port w reply rest q w1 :
  port_status E port = Ret true ->
  stdin w = reply :: rest ->
  lower (strip reply) = "y" ->
  find_next_available_port E fuel (port + 1)
    {| fs := fs w; stdin := rest;
       trace := trace w ++
         [EConnect port;
          EPrint ("Port " ++ str_int port ++ " is already in use.");
          EInput ("Do you want to use the next available port (starting from "
                  ++ str_int (port + 1) ++ ")? (y/n): ")] |} = Some (Ret q, w1) ->
  fault E (OpPopen (uvicorn_cmd q)) = None ->
  fault E (OpBrowser (localhost_url q)) = None ->
  run_uvicorn E fuel port w =
  Some (Ret tt,
        log_all [EPrint ("Using port " ++ str_int q ++ " instead.");
                 EPrint ("Starting Uvicorn on port " ++ str_int q ++ "...");
                 EPopen (uvicorn_cmd q);
                 EPrint ("Opening " ++ localhost_url q ++ " in your default browser");
                 EBrowser (localhost_url q)] w1).
Proof.
  intros Hport Hin Hy Hscan Hpopen Hbrowser.
  apply port_status_true in Hport. unfold uvicorn_cmd, localhost_url in *.
  destruct w as [m sin tr]. cbn [fs stdin trace] in *. subst sin.
  run_server. rewrite Hport. cbn [fs stdin trace Z.eqb]. rewrite Hy.
  cbn [String.eqb Ascii.eqb Bool.eqb]. rewrite <- !app_assoc. cbn [app].
  rewrite Hscan. cbn [fs stdin trace]. rewrite Hpopen.
  cbn [fs stdin trace]. rewrite Hbrowser.
  unfold log_all. by rewrite <- !app_assoc.
Qed.

End ServerFacts.

(** C5. When the requested port is not in use and the launch itself does
    not fail, [run_uvicorn port] starts exactly one process, with the
    command line [uvicorn app:app --reload --port <port>], and then opens
    [http://localhost:<port>] in the browser.  The calls of the run are
    the probe, the launch and the browser, with the two progress lines;
    only a line reporting a failure of the browser can follow. *)
Theorem run_uvicorn_port_free (E : env) (fuel : nat) (port : Z) (w : world) :
  port_status E port = Ret false ->
  fault E (OpPopen ["uvicorn"; "app:app"; "--reload"; "--port"; str_int port]) = None ->
  exists r w' tail,
    run_uvicorn E fuel port w = Some (r, w') /\
    fs w' = fs w /\ stdin w' = stdin w /\
    trace w' =
      (trace w ++
       [EConnect port;
        EPrint ("Starting Uvicorn on port " ++ str_int port ++ "...");
        EPopen ["uvicorn"; "app:app"; "--reload"; "--port"; str_int port];
        EPrint ("Opening http://localhost:" ++ str_int port ++ " in your default browser");
        EBrowser ("http://localhost:" ++ str_int port)] ++ tail)%list /\
    Forall quiet tail /\
    (fault E (OpBrowser ("http://localhost:" ++ str_int port)) = None ->
     r = Ret tt /\ tail = []).
Proof.
  intros Hport Hpopen.
  apply port_status_false in Hport as (errno & Hconn & Herrno).
  destruct w as [m sin tr]. run_server.
  rewrite Hconn, Herrno. cbn [fs stdin trace]. rewrite Hpopen.
  cbn [fs stdin trace].
  destruct (fault E (OpBrowser _)) as [e|] eqn:Hbrowser.
  - destruct (isinstance_CalledProcessError e).
    + eexists _, _, [_]. split; [reflexivity|]. cbn [fs stdin trace].
      split; [done|]. split; [done|]. split; [by rewrite <- !app_assoc|].
      split; [|done]. by repeat constructor.
    + eexists _, _, []. split; [reflexivity|]. cbn [fs stdin trace].
      split; [done|]. split; [done|]. split; [by rewrite <- !app_assoc|].
      split; [constructor|done].
  - eexists _, _, []. split; [reflexivity|]. cbn [fs stdin trace].
    split; [done|]. split; [done|]. split; [by rewrite <- !app_assoc|].
    split; [constructor|done].
Qed.

Lemma run_uvicorn_port_free_witness :
  exists r w' tail,
    run_uvicorn Demo.E 0 5000 Demo.w = Some (r, w') /\
    fs w' = fs Demo.w /\ stdin w' = stdin Demo.w /\
    trace w' =
      (trace Demo.w ++
       [EConnect 5000;
        EPrint ("Starting Uvicorn on port " ++ str_int 5000 ++ "...");
        EPopen ["uvicorn"; "app:app"; "--reload"; "--port"; str_int 5000];
        EPrint ("Opening http://localhost:" ++ str_int 5000 ++ " in your default browser");
        EBrowser ("http://localhost:" ++ str_int 5000)] ++ tail)%list /\
    Forall quiet tail /\
    (fault Demo.E (OpBrowser ("http://localhost:" ++ str_int 5000)) = None ->
     r = Ret tt /\ tail = []).
Proof.
  apply (run_uvicorn_port_free Demo.E 0 5000 Demo.w); reflexivity.
Defined.

Example run_uvicorn_port_free_demo :
  run_uvicorn Demo.E 0 5000 Demo.w =
  Some (Ret tt,
        log_all [EConnect 5000; EPrint "Starting Uvicorn on port 5000...";
                 EPopen ["uvicorn"; "app:app"; "--reload"; "--port"; "5000"];
                 EPrint "Opening http://localhost:5000 in your default browser";
                 EBrowser "http://localhost:5000"] Demo.w).
Proof. reflexivity. Qed.

(** C8. When the requested port is in use, everything hangs on the reply
    to the prompt: unless the reply, stripped of surrounding whitespace
    and lowercased, is exactly [y], the run prints that the user declined
    and returns, having started no process and opened no browser; so a
    run that starts a process or opens the browser had a reply that
    normalises to [y]. *)
Theorem run_uvicorn_port_in_use (E : env) (fuel : nat) (port : Z) (w : world)
    (reply : string) (rest : list string) :
  port_status E port = Ret true ->
  stdin w = reply :: rest ->
  (lower (strip reply) <> "y" ->
   run_uvicorn E fuel port w =
   Some (Ret tt,
         {| fs := fs w; stdin := rest;
            trace := trace w ++
              [EConnect port;
               EPrint ("Port " ++ str_int port ++ " is already in use.");
               EInput ("Do you want to use the next available port (starting from "
                       ++ str_int (port + 1) ++ ")? (y/n): ");
               EPrint "User declined to use another port. Exiting."] |}))
  /\ (forall r w' es,
        run_uvicorn E fuel port w = Some (r, w') ->
        trace w' = (trace w ++ es)%list ->
        (exists cmd, In (EPopen cmd) es) \/ (exists url, In (EBrowser url) es) ->
        lower (strip reply) = "y").
Proof.
  intros Hport Hin.
  assert (Hdecl : lower (strip reply) <> "y" ->
    run_uvicorn E fuel port w =
    Some (Ret tt,
         {| fs := fs w; stdin := rest;
            trace := trace w ++
              [EConnect port;
               EPrint ("Port " ++ str_int port ++ " is already in use.");
               EInput ("Do you want to use the next available port (starting from "
                       ++ str_int (port + 1) ++ ")? (y/n): ");
               EPrint "User declined to use another port. Exiting."] |})).
  { intros Hno. apply port_status_true in Hport.
    destruct w as [m sin tr]. cbn [fs stdin trace] in *. subst sin.
    run_server. rewrite Hport. cbn [fs stdin trace Z.eqb].
    apply String.eqb_neq in Hno. rewrite Hno. cbn [fs stdin trace].
    by rewrite <- !app_assoc. }
  split; [exact Hdecl|].
  intros r w' es Hrun Ht Hlaunch.
  destruct (decide (lower (strip reply) = "y")) as [|Hno]; [done|].
  rewrite (Hdecl Hno) in Hrun. injection Hrun as <- <-.
  simpl in Ht. apply app_inv_head in Ht. subst es.
  destruct Hlaunch as [[x Hx]|[x Hx]]; simpl in Hx;
    repeat (destruct Hx as [Hx|Hx]; [discriminate|]); done.
Qed.

Lemma run_uvicorn_port_in_use_witness :
  run_uvicorn Demo.E 5 8000 (Demo.typing "yes") =
  Some (Ret tt,
        {| fs := fs Demo.w; stdin := [];
           trace := [EConnect 8000; EPrint "Port 8000 is already in use.";
             EInput "Do you want to use the next available port (starting from 8001)? (y/n): ";
             EPrint "User declined to use another port. Exiting."] |}).
Proof.
  apply (proj1 (run_uvicorn_port_in_use Demo.E 5 8000 (Demo.typing "yes")
                  "yes" [] eq_refl eq_refl)).
  discriminate.
Defined.

(** The replies the tests try, and the spellings of yes. *)
Example normalised_replies :
  lower (strip "y") = "y" /\ lower (strip " Y ") = "y" /\
  lower (strip "yes") <> "y" /\ lower (strip "") <> "y" /\
  lower (strip "n") <> "y" /\ lower (strip "maybe") <> "y" /\
  lower (strip "1234") <> "y".
Proof. repeat split; (reflexivity || discriminate). Qed.

Example run_uvicorn_accepted_demo :
  run_uvicorn Demo.E 5 8000 (Demo.typing " Y ") =
  Some (Ret tt,
        {| fs := fs Demo.w; stdin := [];
           trace := [EConnect 8000; EPrint "Port 8000 is already in use.";
             EInput "Do you want to use the next available port (starting from 8001)? (y/n): ";
             EConnect 8001; EPrint "Using port 8001 instead.";
             EPrint "Starting Uvicorn on port 8001...";
             EPopen ["uvicorn"; "app:app"; "--reload"; "--port"; "8001"];
             EPrint "Opening http://localhost:8001 in your default browser";
             EBrowser "http://localhost:8001"] |}).
Proof. reflexivity. Qed.

(** ** Paths *)

Lemma append_String c (a b : string) : String c a ++ b = String c (a ++ b).
Proof. reflexivity. Qed.

Lemma append_empty (b : string) : "" ++ b = b.
Proof. reflexivity. Qed.

Lemma split_slash_nonempty s : split_slash s <> [].
Proof.
  destruct s as [|c s]; simpl; [done|].
  destruct (Ascii.eqb c "/"); [done|]. by destruct (split_slash s).
Qed.

Lemma split_slash_app a b :
  split_slash (a ++ String "/" b) = (split_slash a ++ split_slash b)%list.
Proof.
  induction a as [|c a IH]; [done|].
  rewrite append_String. simpl.
  destruct (Ascii.eqb c "/"); [by rewrite IH|].
  rewrite IH. pose proof (split_slash_nonempty a).
  by destruct (split_slash a).
Qed.

Lemma endswith_slash a :
  endswith_char "/" a = true -> exists a', a = a' ++ "/".
Proof.
  induction a as [|c a IH]; [done|]. simpl.
  destruct a as [|c' a].
  - intros Hc. apply Ascii.eqb_eq in Hc as ->. by exists "".
  - intros Hrec. destruct (IH Hrec) as [a' Ha']. exists (String c a').
    rewrite append_String. by f_equal.
Qed.

Lemma string_app_assoc (a b c : string) : (a ++ b) ++ c = a ++ (b ++ c).
Proof.
  induction a as [|x a IH]; [done|]. by rewrite !append_String, IH.
Qed.

(** Joining a relative path resolves to the components of both parts. *)
Lemma resolve_join a b :
  startswith_char "/" b = false ->
  resolve (os_path_join a b) = (resolve a ++ resolve b)%list.
Proof.
  intros Hrel. unfold os_path_join. rewrite Hrel. unfold resolve.
  destruct (String.eqb a "") eqn:Ha.
  - apply String.eqb_eq in Ha as ->. done.
  - simpl orb. destruct (endswith_char "/" a) eqn:Hend.
    + destruct (endswith_slash _ Hend) as [a' ->].
      rewrite string_app_assoc, append_String, append_empty.
      rewrite !split_slash_app, !List.filter_app. simpl.
      by rewrite app_nil_r.
    + rewrite append_String, append_empty.
      by rewrite split_slash_app, List.filter_app.
Qed.

(** ** File system calls *)

Lemma with_dirs_lookup_other rest : forall at_ m p,
  (forall k, (0 < k <= length rest)%nat -> p <> (at_ ++ take k rest)%list) ->
  with_dirs at_ rest m !! p = m !! p.
Proof.
  induction rest as [|c rest IH]; intros at_ m p Hp; [done|].
  simpl. rewrite IH.
  - apply lookup_insert_ne. intros <-. apply (Hp 1%nat); simpl; [lia|done].
  - intros k Hk ->. apply (Hp (S k)); [simpl; lia|].
    simpl. by rewrite <- app_assoc.
Qed.

Lemma with_dirs_lookup_prefix rest : forall at_ m k,
  (0 < k <= length rest)%nat ->
  with_dirs at_ rest m !! (at_ ++ take k rest)%list = Some Dir.
Proof.
  induction rest as [|c rest IH]; intros at_ m k Hk; [simpl in Hk; lia|].
  simpl in Hk. destruct k as [|k]; [lia|]. simpl.
  destruct k as [|k].
  - rewrite take_0, with_dirs_lookup_other; [apply lookup_insert_eq|].
    intros k Hk' Heq. apply (f_equal length) in Heq.
    rewrite !length_app, length_take in Heq. simpl in Heq. lia.
  - replace (at_ ++ c :: take (S k) rest)%list
      with ((at_ ++ [c]) ++ take (S k) rest)%list by (by rewrite <- app_assoc).
    apply IH. lia.
Qed.

Lemma with_dirs_app d : forall at_ rest m,
  with_dirs at_ (d ++ rest) m = with_dirs (at_ ++ d) rest (with_dirs at_ d m).
Proof.
  induction d as [|c d IH]; intros at_ rest m; simpl.
  - by rewrite app_nil_r.
  - rewrite IH. by rewrite <- app_assoc.
Qed.

Lemma with_dirs_id rest : forall at_ m,
  (forall k, (0 < k <= length rest)%nat ->
     m !! (at_ ++ take k rest)%list = Some Dir) ->
  with_dirs at_ rest m = m.
Proof.
  induction rest as [|c rest IH]; intros at_ m Hm; [done|].
  simpl. rewrite insert_id by (apply (Hm 1%nat); simpl; lia).
  apply IH. intros k Hk. rewrite <- app_assoc. apply (Hm (S k)). simpl; lia.
Qed.

Lemma with_dirs_subseteq_insert (m : gmap (list string) node) q :
  m !! q = None -> m ⊆ <[q := Dir]> m.
Proof. apply insert_subseteq. Qed.

Lemma makedirs_from_subseteq path rest : forall at_ m r m',
  makedirs_from path at_ rest m = (r, m') -> m ⊆ m'.
Proof.
  induction rest as [|c rest IH]; intros at_ m r m'; simpl.
  - by intros [= _ <-].
  - destruct (m !! (at_ ++ [c])%list) as [[|old]|] eqn:Hq.
    + apply IH.
    + by intros [= _ <-].
    + intros Hrun. apply IH in Hrun.
      etrans; [by apply with_dirs_subseteq_insert|done].
Qed.

Lemma makedirs_from_ret path rest : forall at_ m m',
  makedirs_from path at_ rest m = (Ret tt, m') -> m' = with_dirs at_ rest m.
Proof.
  induction rest as [|c rest IH]; intros at_ m m'; simpl.
  - by intros [= <-].
  - destruct (m !! (at_ ++ [c])%list) as [[|old]|] eqn:Hq.
    + intros Hrun. rewrite (insert_id _ _ _ Hq). by apply IH.
    + done.
    + apply IH.
Qed.


Lemma write_file_ret path new m m' :
  write_file path new m = Ret m' ->
  m' = <[resolve path :=
           File (new (match m !! resolve path with
                      | Some (File old) => Some old
                      | _ => None
                      end))]> m.
Proof.
  unfold write_file. destruct (resolve path) as [|c p] eqn:Hp; [done|].
  destruct (lookup_path m (removelast (c :: p))) as [[|?]|]; [|done..].
  destruct (m !! (c :: p)) as [[|old]|]; [done|by intros [= <-]..].
Qed.

Section ScaffoldFacts.

Context (E : env).

Lemma os_makedirs_fs_step path : fs_step (os_makedirs E path).
Proof.
  intros w. unfold os_makedirs. destruct (fault E _) as [e|].
  - by exists (Raise e), w.
  - destruct (makedirs_from _ _ _ _) as [r m] eqn:Hm.
    exists r, (set_fs m w). repeat split; try done.
    intros e _. simpl. by eapply makedirs_from_subseteq.
Qed.

Lemma importlib_import_module_fs_step module :
  fs_step (importlib_import_module E module ;; ret tt).
Proof.
  intros w. unfold bind, importlib_import_module, ret.
  destruct (fault E _) as [e|].
  - by exists (Raise e), w.
  - by exists (Ret tt), w.
Qed.

Lemma shutil_copyfile_fs_step module file dst :
  fs_step (shutil_copyfile E module file dst).
Proof.
  intros w. unfold shutil_copyfile. destruct (fault E _) as [e|].
  { by exists (Raise e), w. }
  destruct (resources E module file) as [content|].
  - destruct (write_file _ _ _) as [m|e].
    + exists (Ret tt), (set_fs m w). by repeat split.
    + by exists (Raise e), w.
  - by eexists (Raise _), w.
Qed.

Lemma append_text_fs_step path data : fs_step (append_text E path data).
Proof.
  intros w. unfold append_text. destruct (fault E _) as [e|].
  { by exists (Raise e), w. }
  destruct (write_file _ _ _) as [m|e].
  - exists (Ret tt), (set_fs m w). by repeat split.
  - by exists (Raise e), w.
Qed.

Lemma os_makedirs_ret path w w1 :
  os_makedirs E path w = Some (Ret tt, w1) ->
  w1 = set_fs (with_dirs [] (resolve path) (fs w)) w.
Proof.
  unfold os_makedirs. destruct (fault E _); [done|].
  destruct (makedirs_from _ _ _ _) as [r m] eqn:Hm.
  intros [= -> <-]. by rewrite (makedirs_from_ret _ _ _ _ _ Hm).
Qed.

Lemma shutil_copyfile_ret module file dst w w1 :
  shutil_copyfile E module file dst w = Some (Ret tt, w1) ->
  exists content,
    resources E module file = Some content /\
    w1 = set_fs (<[resolve dst := File content]> (fs w)) w.
Proof.
  unfold shutil_copyfile. destruct (fault E _); [done|].
  destruct (resources E module file) as [content|]; [|done].
  destruct (write_file _ _ _) as [m|e] eqn:Hm; [|done].
  intros [= <-]. exists content. split; [done|].
  by rewrite (write_file_ret _ _ _ _ Hm).
Qed.

Lemma append_text_ret path data w w1 :
  append_text E path data w = Some (Ret tt, w1) ->
  w1 = set_fs (<[resolve path :=
                   File (default "" (match fs w !! resolve path with
                                     | Some (File old) => Some old
                                     | _ => None
                                     end) ++ data)]> (fs w)) w.
Proof.
  unfold append_text. destruct (fault E _); [done|].
  destruct (write_file _ _ _) as [m|e] eqn:Hm; [|done].
  intros [= <-]. by rewrite (write_file_ret _ _ _ _ Hm).
Qed.

(** ** Sequences of calls *)

Lemma bind_ext {A B} (m : M A) (k k' : A -> M B) w :
  (forall a w1, k a w1 = k' a w1) -> bind m k w = bind m k' w.
Proof.
  intros Hk. unfold bind. by destruct (m w) as [[[a|e] w1]|].
Qed.

Lemma try_except_ext {A} (body body' : M A) catches handler w :
  body w = body' w ->
  try_except body catches handler w = try_except body' catches handler w.
Proof. intros Hb. unfold try_except. by rewrite Hb. Qed.

Lemma bind_then_ret {A B} (m : M A) (k : unit -> M B) w :
  bind (bind m (fun _ => ret tt)) k w = bind m (fun _ => k tt) w.
Proof. unfold bind, ret. by destruct (m w) as [[[a|e] w1]|]. Qed.

(** What [import_module] returns stands for the module asked for. *)
Lemma importlib_import_module_bind {B} module (k : string -> M B) w :
  bind (importlib_import_module E module) k w =
  bind (importlib_import_module E module) (fun _ => k module) w.
Proof.
  unfold bind, importlib_import_module. by destruct (fault E _).
Qed.

Lemma run_steps_cons_ret s steps w w' :
  run_steps (s :: steps) w = Some (Ret tt, w') ->
  exists w1, s w = Some (Ret tt, w1) /\ run_steps steps w1 = Some (Ret tt, w').
Proof.
  simpl. unfold bind. destruct (s w) as [[[[]|e] w1]|]; [|done..]. eauto.
Qed.

Lemma run_steps_app_raise pre : forall failing post w w1 e w2,
  run_steps pre w = Some (Ret tt, w1) ->
  failing w1 = Some (Raise e, w2) ->
  run_steps (pre ++ failing :: post) w = Some (Raise e, w2).
Proof.
  induction pre as [|s pre IH]; intros failing post w w1 e w2 Hpre Hfail.
  - injection Hpre as <-. simpl. unfold bind. by rewrite Hfail.
  - apply run_steps_cons_ret in Hpre as (w0 & Hs & Hpre).
    simpl. unfold bind at 1. rewrite Hs. by eapply IH.
Qed.

(** A sequence of file system calls closed by a [print]: either all of
    them succeed and the line is printed, or one raises and nothing is. *)
Lemma run_steps_then_print steps line : forall w,
  Forall fs_step steps ->
  (exists w2, run_steps (steps ++ [print line]) w = Some (Ret tt, w2) /\
     trace w2 = (trace w ++ [EPrint line])%list /\ stdin w2 = stdin w)
  \/ (exists e w2, run_steps (steps ++ [print line]) w = Some (Raise e, w2) /\
        trace w2 = trace w /\ stdin w2 = stdin w).
Proof.
  induction steps as [|s steps IH]; intros w Hsteps.
  - left. eexists. split; [reflexivity|done].
  - inversion Hsteps as [|? ? Hs Hrest]; subst.
    destruct (Hs w) as (r & w1 & Hrun & Ht & Hin & _).
    simpl. unfold bind. rewrite Hrun. destruct r as [[]|e].
    + rewrite <- Ht, <- Hin. by apply IH.
    + right. by exists e, w1.
Qed.

Lemma scaffold_steps_fs_steps name :
  exists steps,
    scaffold_steps E name =
      (steps ++ [print ("Created a new " ++ FRAMEWORK_NAME E ++ " app at "
                        ++ os_path_join (getcwd E) name)])%list /\
    Forall fs_step steps.
Proof.
  eexists (removelast (scaffold_steps E name)). split; [reflexivity|].
  simpl. repeat constructor;
    auto using os_makedirs_fs_step, importlib_import_module_fs_step,
      shutil_copyfile_fs_step, append_text_fs_step.
Qed.

(** [create_app_directory] runs [scaffold_steps] in its [try]. *)
Lemma create_app_directory_steps name w :
  create_app_directory E name w =
  (present <- os_path_exists (os_path_join (getcwd E) name) ;;
   if present : bool then print "app name already exists at this directory"
   else try_except (run_steps (scaffold_steps E name)) isinstance_Exception
          (fun e => print ("An error occurred while creating the directory: "
                           ++ exc_str e))) w.
Proof.
  unfold create_app_directory. apply bind_ext. intros [] w1; [done|].
  apply try_except_ext. unfold scaffold_steps, run_steps.
  apply bind_ext. intros _ w2.
  rewrite bind_then_ret, importlib_import_module_bind.
  do 11 (apply bind_ext; intros _ ?).
  reflexivity.
Qed.

Lemma os_path_exists_eval path w :
  os_path_exists path w =
  Some (Ret (bool_decide (is_Some (lookup_path (fs w) (resolve path)))), w).
Proof. reflexivity. Qed.

End ScaffoldFacts.

(** C4. [create_app_directory] checks once whether the target exists: if
    a file or a directory is at [<cwd>/<name>], the call prints one line
    and returns, and the file system (as the pending input) is what it
    was. *)
Theorem create_app_directory_existing (E : env) (name : string) (w : world) :
  is_Some (lookup_path (fs w) (resolve (os_path_join (getcwd E) name))) ->
  create_app_directory E name w =
  Some (Ret tt,
        {| fs := fs w; stdin := stdin w;
           trace := trace w ++ [EPrint "app name already exists at this directory"] |}).
Proof.
  intros Hpresent. unfold create_app_directory, bind.
  rewrite os_path_exists_eval. by rewrite bool_decide_eq_true_2.
Qed.

Lemma create_app_directory_existing_witness :
  create_app_directory Demo.E "myapp" Demo.w_taken =
  Some (Ret tt,
        {| fs := fs Demo.w_taken; stdin := [];
           trace := [EPrint "app name already exists at this directory"] |}).
Proof.
  apply (create_app_directory_existing Demo.E "myapp" Demo.w_taken).
  vm_compute. eauto.
Defined.

Section ErrorFacts.

Context (E : env).

Lemma run_steps_fs_silent steps : forall w w1,
  Forall fs_step steps ->
  run_steps steps w = Some (Ret tt, w1) ->
  trace w1 = trace w /\ stdin w1 = stdin w.
Proof.
  induction steps as [|s steps IH]; intros w w1 Hsteps Hrun.
  - by injection Hrun as <-.
  - inversion Hsteps as [|? ? Hs Hrest]; subst.
    apply run_steps_cons_ret in Hrun as (w0 & Hsw & Hrun).
    destruct (Hs w) as (r & w' & Hsw' & Ht & Hin & _).
    rewrite Hsw in Hsw'. injection Hsw' as <- <-.
    destruct (IH _ _ Hrest Hrun) as [-> ->]. done.
Qed.

(** The steps before the last [print] are file system calls, so a step
    that raises is one of them, and so are the steps before it. *)
Lemma scaffold_steps_failing name pre failing post w1 e w2 :
  scaffold_steps E name = (pre ++ failing :: post)%list ->
  failing w1 = Some (Raise e, w2) ->
  Forall fs_step pre /\ fs_step failing.
Proof.
  intros Hsplit Hfail.
  destruct (scaffold_steps_fs_steps E name) as (steps & Hsteps & Hfs).
  rewrite Hsteps in Hsplit.
  destruct (decide (post = [])) as [->|Hpost].
  - apply app_inj_tail in Hsplit as [_ <-]. discriminate Hfail.
  - destruct (exists_last Hpost) as (post' & last & ->).
    change (pre ++ failing :: post' ++ [last])%list
      with (pre ++ (failing :: post') ++ [last])%list in Hsplit.
    rewrite app_assoc in Hsplit.
    apply app_inj_tail in Hsplit as [-> _].
    apply Forall_app in Hfs as [Hpre Hrest]. split; [done|].
    by inversion Hrest.
Qed.

End ErrorFacts.

(** C9. [create_app_directory] is not atomic but does not raise on an
    error: when, after the existence check, the calls [pre] have
    succeeded and the next one raises an exception [e] of class
    [Exception] (a directory creation, the import of the templates, a
    copy, the append), the exception is caught, one line with [str(e)] is
    printed and the function returns normally; the file system is left as
    the failing call left it, which contains everything the earlier calls
    created. *)
Theorem create_app_directory_error_caught (E : env) (name : string) (w : world)
    (pre : list (M unit)) (failing : M unit) (post : list (M unit))
    (w1 : world) (e : exc) (w2 : world) :
  lookup_path (fs w) (resolve (os_path_join (getcwd E) name)) = None ->
  scaffold_steps E name = (pre ++ failing :: post)%list ->
  run_steps pre w = Some (Ret tt, w1) ->
  failing w1 = Some (Raise e, w2) ->
  isinstance_Exception e = true ->
  create_app_directory E name w =
    Some (Ret tt,
          {| fs := fs w2; stdin := stdin w;
             trace := trace w ++
               [EPrint ("An error occurred while creating the directory: "
                        ++ exc_str e)] |})
  /\ fs w1 ⊆ fs w2.
Proof.
  intros Hmissing Hsplit Hpre Hfail Hexc.
  destruct (scaffold_steps_failing E name _ _ _ _ _ _ Hsplit Hfail)
    as [Hfs_pre Hfs_failing].
  destruct (run_steps_fs_silent pre _ _ Hfs_pre Hpre) as [Ht1 Hin1].
  destruct (Hfs_failing w1) as (r & w' & Hfail' & Ht2 & Hin2 & Hkeep).
  rewrite Hfail in Hfail'. injection Hfail' as <- <-.
  split; [|by eapply Hkeep].
  rewrite create_app_directory_steps. unfold bind.
  rewrite os_path_exists_eval, bool_decide_eq_false_2
    by (rewrite Hmissing; by intros [? ?]).
  unfold try_except.
  rewrite Hsplit, (run_steps_app_raise _ _ _ _ _ _ _ Hpre Hfail), Hexc.
  unfold print, log. by rewrite Ht2, Ht1, Hin2, Hin1.
Qed.

Lemma create_app_directory_error_caught_witness :
  create_app_directory Demo.E_failing "myapp" Demo.w =
    Some (Ret tt,
          {| fs := fs Demo.w_partial; stdin := stdin Demo.w;
             trace := trace Demo.w ++
               [EPrint ("An error occurred while creating the directory: "
                        ++ "[Errno 28] No space left on device")] |})
  /\ fs Demo.w_partial ⊆ fs Demo.w_partial.
Proof.
  apply (create_app_directory_error_caught Demo.E_failing "myapp" Demo.w
           (take 4 (scaffold_steps Demo.E_failing "myapp"))
           (shutil_copyfile Demo.E_failing "wayland.templates" "main.py"
              "/home/dev/myapp/main.py")
           (drop 5 (scaffold_steps Demo.E_failing "myapp"))
           Demo.w_partial
           (Exc OSError "[Errno 28] No space left on device")
           Demo.w_partial).
  - reflexivity.
  - reflexivity.
  - vm_compute. reflexivity.
  - vm_compute. reflexivity.
  - reflexivity.
Defined.

(** An exception that is not an [Exception] (an interrupt) is not caught. *)
Lemma create_app_directory_interrupted (E : env) (name : string) (w : world)
    (pre : list (M unit)) (failing : M unit) (post : list (M unit))
    (w1 : world) (e : exc) (w2 : world) :
  lookup_path (fs w) (resolve (os_path_join (getcwd E) name)) = None ->
  scaffold_steps E name = (pre ++ failing :: post)%list ->
  run_steps pre w = Some (Ret tt, w1) ->
  failing w1 = Some (Raise e, w2) ->
  isinstance_Exception e = false ->
  create_app_directory E name w = Some (Raise e, w2).
Proof.
  intros Hmissing Hsplit Hpre Hfail Hexc.
  rewrite create_app_directory_steps. unfold bind.
  rewrite os_path_exists_eval, bool_decide_eq_false_2
    by (rewrite Hmissing; by intros [? ?]).
  unfold try_except.
  by rewrite Hsplit, (run_steps_app_raise _ _ _ _ _ _ _ Hpre Hfail), Hexc.
Qed.

Section TreeFacts.

Context (E : env).

Lemma dir_chain_insert (d rel : list string) (v : node) (m : gmap (list string) node) :
  rel <> [] ->
  (forall k, (0 < k <= length d)%nat -> m !! take k d = Some Dir) ->
  forall k, (0 < k <= length d)%nat -> <[(d ++ rel)%list := v]> m !! take k d = Some Dir.
Proof.
  intros Hrel Hm k Hk. rewrite lookup_insert_ne; [by apply Hm|].
  intros Heq. apply (f_equal length) in Heq.
  rewrite length_app, length_take in Heq. destruct rel; [done|]. simpl in Heq. lia.
Qed.

Lemma with_dirs_under (d rest : list string) (m : gmap (list string) node) :
  (forall k, (0 < k <= length d)%nat -> m !! take k d = Some Dir) ->
  with_dirs [] (d ++ rest) m = with_dirs d rest m.
Proof.
  intros Hm. rewrite with_dirs_app. simpl. f_equal. by apply with_dirs_id.
Qed.

Lemma run_scaffold_steps_ret name w w' :
  run_steps (scaffold_steps E name) w = Some (Ret tt, w') ->
  exists settings main_py app_py index_py index_html logo,
    resources E (MODULE_NAME E ++ ".templates") "settings.py" = Some settings /\
    resources E (MODULE_NAME E ++ ".templates") "main.py" = Some main_py /\
    resources E (MODULE_NAME E ++ ".templates") "app.py" = Some app_py /\
    resources E (MODULE_NAME E ++ ".templates") "index.py" = Some index_py /\
    resources E (MODULE_NAME E ++ ".templates") "index.html" = Some index_html /\
    resources E (MODULE_NAME E ++ ".templates") "logo.png" = Some logo /\
    fs w' =
      kmap (resolve (os_path_join (getcwd E) name) ++.)
        (app_tree (settings ++ app_settings name) main_py app_py index_py index_html logo)
      ∪ with_dirs [] (resolve (os_path_join (getcwd E) name)) (fs w).
Proof.
  unfold scaffold_steps. intros Hrun.
  apply run_steps_cons_ret in Hrun as (w1 & H1 & Hrun).
  apply run_steps_cons_ret in Hrun as (w2 & H2 & Hrun).
  apply run_steps_cons_ret in Hrun as (w3 & H3 & Hrun).
  apply run_steps_cons_ret in Hrun as (w4 & H4 & Hrun).
  apply run_steps_cons_ret in Hrun as (w5 & H5 & Hrun).
  apply run_steps_cons_ret in Hrun as (w6 & H6 & Hrun).
  apply run_steps_cons_ret in Hrun as (w7 & H7 & Hrun).
  apply run_steps_cons_ret in Hrun as (w8 & H8 & Hrun).
  apply run_steps_cons_ret in Hrun as (w9 & H9 & Hrun).
  apply run_steps_cons_ret in Hrun as (w10 & H10 & Hrun).
  apply run_steps_cons_ret in Hrun as (w11 & H11 & Hrun).
  apply run_steps_cons_ret in Hrun as (w12 & H12 & Hrun).
  apply run_steps_cons_ret in Hrun as (w13 & H13 & Hrun).
  injection Hrun as <-. injection H13 as <-.
  apply os_makedirs_ret in H1.
  assert (w2 = w1) as ->.
  { revert H2. unfold bind, importlib_import_module, ret.
    destruct (fault E _); [done|]. by intros [= ->]. }
  clear H2.
  apply shutil_copyfile_ret in H3 as (settings & Rsettings & H3).
  apply append_text_ret in H4.
  apply shutil_copyfile_ret in H5 as (main_py & Rmain & H5).
  apply shutil_copyfile_ret in H6 as (app_py & Rapp & H6).
  apply os_makedirs_ret in H7. apply os_makedirs_ret in H8.
  apply os_makedirs_ret in H9.
  apply shutil_copyfile_ret in H10 as (index_py & Rindex & H10).
  apply shutil_copyfile_ret in H11 as (index_html & Rhtml & H11).
  apply shutil_copyfile_ret in H12 as (logo & Rlogo & H12).
  exists settings, main_py, app_py, index_py, index_html, logo.
  do 6 (split; [done|]).
  rewrite !resolve_join in * by done.
  set (d := resolve (os_path_join (getcwd E) name)) in *.
  change (resolve "settings.py") with ["settings.py"] in *.
  change (resolve "main.py") with ["main.py"] in *.
  change (resolve "app.py") with ["app.py"] in *.
  change (resolve "app") with ["app"] in *.
  change (resolve "routes") with ["routes"] in *.
  change (resolve "static") with ["static"] in *.
  change (resolve "index.py") with ["index.py"] in *.
  change (resolve "index.html") with ["index.html"] in *.
  change (resolve "logo.png") with ["logo.png"] in *.
  rewrite <- !app_assoc in *. cbn [app] in *.
  assert (Hbase : forall k, (0 < k <= length d)%nat ->
            with_dirs [] d (fs w) !! take k d = Some Dir).
  { intros k Hk. by apply (with_dirs_lookup_prefix d []). }
  set (base := with_dirs [] d (fs w)) in *.
  subst w1 w3. cbn [fs set_fs] in H4.
  rewrite lookup_insert_eq in H4. cbn [default from_option id] in H4.
  rewrite insert_insert_eq in H4.
  subst w4 w5 w6. cbn [fs set_fs] in H7.
  rewrite with_dirs_under in H7 by (by repeat apply dir_chain_insert).
  cbn [with_dirs] in H7.
  subst w7. cbn [fs set_fs] in H8.
  rewrite with_dirs_under in H8 by (by repeat apply dir_chain_insert).
  cbn [with_dirs] in H8. rewrite <- !app_assoc in H8. cbn [app] in H8.
  rewrite insert_insert_eq in H8.
  subst w8. cbn [fs set_fs] in H9.
  rewrite with_dirs_under in H9 by (by repeat apply dir_chain_insert).
  cbn [with_dirs] in H9. rewrite <- !app_assoc in H9. cbn [app] in H9.
  rewrite (insert_id _ (d ++ ["app"])%list Dir) in H9
    by (rewrite lookup_insert_ne by (intros ?; simplify_list_eq);
        apply lookup_insert_eq).
  subst. cbn [fs set_fs log]. unfold app_tree.
  rewrite !kmap_insert, kmap_empty, <- !insert_union_l, (left_id_L ∅ (∪)).
  all: (reflexivity || apply _).
Qed.
End TreeFacts.

Section CreatedFacts.

Context (E : env).

Lemma tree_shaped_parent (m : gmap (list string) node) p n :
  tree_shaped m = true -> m !! p = Some n ->
  lookup_path m (removelast p) = Some Dir.
Proof.
  unfold tree_shaped. rewrite forallb_forall. intros Hshape Hp.
  specialize (Hshape (p, n)). simpl in Hshape.
  destruct (lookup_path m (removelast p)) as [[|?]|]; [done|..];
    discriminate Hshape; apply list_elem_of_In; by apply elem_of_map_to_list.
Qed.

(** In a tree-shaped file system nothing lies below a path that does not
    exist. *)
Lemma tree_shaped_nothing_under (m : gmap (list string) node) d :
  tree_shaped m = true -> lookup_path m d = None ->
  forall rel, m !! (d ++ rel)%list = None.
Proof.
  intros Hshape Hd rel.
  assert (Hne : d <> []) by (by intros ->).
  induction rel as [|c rel IH] using rev_ind.
  - rewrite app_nil_r. by destruct d.
  - destruct (m !! (d ++ rel ++ [c])%list) as [n|] eqn:Hl; [|done].
    apply (tree_shaped_parent _ _ _ Hshape) in Hl.
    rewrite app_assoc, removelast_last in Hl.
    destruct (d ++ rel)%list eqn:Hdr; [by destruct d|].
    simpl in Hl. congruence.
Qed.

Lemma app_tree_root settings main_py app_py index_py index_html logo :
  app_tree settings main_py app_py index_py index_html logo !! [] = None.
Proof.
  unfold app_tree. rewrite !lookup_insert_ne by discriminate.
  apply lookup_empty.
Qed.

(** A run that ends with the line [Created ...] is one in which every
    call of the [try] returned. *)
Lemma create_app_directory_created name w r w' :
  lookup_path (fs w) (resolve (os_path_join (getcwd E) name)) = None ->
  create_app_directory E name w = Some (r, w') ->
  trace w' = (trace w ++
    [EPrint ("Created a new " ++ FRAMEWORK_NAME E ++ " app at "
             ++ os_path_join (getcwd E) name)])%list ->
  run_steps (scaffold_steps E name) w = Some (Ret tt, w') /\
  r = Ret tt /\ stdin w' = stdin w.
Proof.
  intros Hmissing Hrun Htrace.
  rewrite create_app_directory_steps in Hrun. unfold bind in Hrun.
  rewrite os_path_exists_eval, bool_decide_eq_false_2 in Hrun
    by (rewrite Hmissing; by intros [? ?]).
  unfold try_except in Hrun.
  destruct (scaffold_steps_fs_steps E name) as (steps & Heq & Hfs).
  rewrite Heq in Hrun.
  destruct (run_steps_then_print steps
              ("Created a new " ++ FRAMEWORK_NAME E ++ " app at "
               ++ os_path_join (getcwd E) name) w Hfs)
    as [(w2 & Hok & Ht & Hin)|(e & w2 & Hraise & Ht & Hin)].
  - rewrite Hok in Hrun. injection Hrun as <- <-. by rewrite Heq.
  - exfalso. rewrite Hraise in Hrun.
    destruct (isinstance_Exception e); injection Hrun as <- <-.
    + cbn [trace log] in Htrace. rewrite Ht in Htrace.
      apply app_inv_head in Htrace. injection Htrace as Hline.
      discriminate Hline.
    + rewrite Ht in Htrace. apply (f_equal length) in Htrace.
      rewrite length_app in Htrace. simpl in Htrace. lia.
Qed.

End CreatedFacts.

(** C3. When the target directory does not exist and every directory
    creation and file copy succeeds (the run then ends with the line
    [Created ...]), [create_app_directory name] leaves at [<cwd>/<name>] a
    directory holding exactly the template tree: [settings.py], [main.py]
    and [app.py], and [app/] with [routes/index.py], [static/index.html]
    and [static/logo.png], every file with the content of the template of
    the same name ([settings.py] with the application's settings added).
    Outside that directory only the missing directories on the way to it
    are added. *)
Theorem create_app_directory_creates_tree (E : env) (name : string)
    (w : world) (r : res unit) (w' : world) :
  lookup_path (fs w) (resolve (os_path_join (getcwd E) name)) = None ->
  create_app_directory E name w = Some (r, w') ->
  trace w' = (trace w ++
    [EPrint ("Created a new " ++ FRAMEWORK_NAME E ++ " app at "
             ++ os_path_join (getcwd E) name)])%list ->
  exists settings main_py app_py index_py index_html logo,
    let templates := lower (FRAMEWORK_NAME E) ++ ".templates" in
    let d := resolve (os_path_join (getcwd E) name) in
    let tree := app_tree (settings ++ app_settings name) main_py app_py
                  index_py index_html logo in
    resources E templates "settings.py" = Some settings /\
    resources E templates "main.py" = Some main_py /\
    resources E templates "app.py" = Some app_py /\
    resources E templates "index.py" = Some index_py /\
    resources E templates "index.html" = Some index_html /\
    resources E templates "logo.png" = Some logo /\
    r = Ret tt /\ stdin w' = stdin w /\
    fs w' = kmap (d ++.) tree ∪ with_dirs [] d (fs w) /\
    fs w' !! d = Some Dir /\
    (tree_shaped (fs w) = true ->
     forall rel, rel <> [] -> fs w' !! (d ++ rel)%list = tree !! rel).
Proof.
  intros Hmissing Hrun Htrace.
  destruct (create_app_directory_created E name w r w' Hmissing Hrun Htrace)
    as (Hsteps & -> & Hin).
  destruct (run_scaffold_steps_ret E name w w' Hsteps)
    as (settings & main_py & app_py & index_py & index_html & logo &
        R1 & R2 & R3 & R4 & R5 & R6 & Hfs).
  exists settings, main_py, app_py, index_py, index_html, logo.
  cbv zeta. split; [exact R1|]. split; [exact R2|]. split; [exact R3|].
  split; [exact R4|]. split; [exact R5|]. split; [exact R6|].
  split; [reflexivity|]. split; [exact Hin|]. split; [exact Hfs|].
  clear Hrun Htrace Hsteps.
  assert (Hne : resolve (os_path_join (getcwd E) name) <> []).
  { intros Hd. rewrite Hd in Hmissing. discriminate Hmissing. }
  revert Hne Hfs Hmissing.
  generalize (resolve (os_path_join (getcwd E) name)).
  intros d Hne Hfs Hmissing.
  split.
  - rewrite Hfs, lookup_union_r.
    + pose proof (with_dirs_lookup_prefix d [] (fs w) (length d)) as Hd.
      rewrite firstn_all in Hd. apply Hd. destruct d; [done|simpl; lia].
    + apply (lookup_kmap_None (d ++.)). intros rel Hrel.
      assert (rel = []) as ->; [|apply app_tree_root].
      apply (f_equal length) in Hrel. rewrite length_app in Hrel.
      destruct rel; [done|simpl in Hrel; lia].
  - intros Hshape rel Hrel. rewrite Hfs, lookup_union_l.
    + apply (lookup_kmap (d ++.)).
    + rewrite with_dirs_lookup_other.
      * apply tree_shaped_nothing_under; assumption.
      * intros k Hk Heq. apply (f_equal length) in Heq. simpl in Heq.
        rewrite length_app, length_take in Heq. destruct rel; [congruence|].
        simpl in Heq. lia.
Qed.

Lemma create_app_directory_creates_tree_witness :
  fs Demo.w_created !! ["home"; "dev"; "myapp"] = Some Dir /\
  forall rel, rel <> [] ->
    fs Demo.w_created !! (["home"; "dev"; "myapp"] ++ rel)%list =
    app_tree ("<settings.py>" ++ app_settings "myapp") "<main.py>" "<app.py>"
      "<index.py>" "<index.html>" "<logo.png>" !! rel.
Proof.
  assert (H1 : lookup_path (fs Demo.w) (resolve (os_path_join (getcwd Demo.E) "myapp")) = None).
  { vm_compute. reflexivity. }
  assert (H2 : create_app_directory Demo.E "myapp" Demo.w = Some (Ret tt, Demo.w_created)).
  { vm_compute. reflexivity. }
  assert (H3 : trace Demo.w_created = (trace Demo.w ++
    [EPrint ("Created a new " ++ FRAMEWORK_NAME Demo.E ++ " app at "
             ++ os_path_join (getcwd Demo.E) "myapp")])%list).
  { vm_compute. reflexivity. }
  pose proof (create_app_directory_creates_tree Demo.E "myapp" Demo.w (Ret tt)
              Demo.w_created H1 H2 H3) as H.
  destruct H
    as (settings & main_py & app_py & index_py & index_html & logo & H).
  cbv zeta in H.
  destruct H as (R1 & R2 & R3 & R4 & R5 & R6 & _ & _ & _ & Hdir & Htree).
  assert (Hd : resolve (os_path_join (getcwd Demo.E) "myapp") = ["home"; "dev"; "myapp"])
    by (vm_compute; reflexivity).
  rewrite Hd in Hdir, Htree.
  vm_compute in R1, R2, R3, R4, R5, R6.
  injection R1 as <-. injection R2 as <-. injection R3 as <-.
  injection R4 as <-. injection R5 as <-. injection R6 as <-.
  split; [exact Hdir|]. apply Htree. vm_compute. reflexivity.
Defined.

Lemma app_tree_settings settings main_py app_py index_py index_html logo :
  app_tree settings main_py app_py index_py index_html logo !! ["settings.py"]
  = Some (File settings).
Proof. vm_compute. reflexivity. Qed.

(** C10. The [settings.py] of a newly created application is not the
    template alone: for every name it is the content of the template
    [settings.py] followed by an empty line, the comment
    [# App-specific settings] and the line [APP_NAME = '<name>'], the
    name being copied as it is. *)
Theorem create_app_directory_settings (E : env) (name : string)
    (w : world) (r : res unit) (w' : world) :
  lookup_path (fs w) (resolve (os_path_join (getcwd E) name)) = None ->
  create_app_directory E name w = Some (r, w') ->
  trace w' = (trace w ++
    [EPrint ("Created a new " ++ FRAMEWORK_NAME E ++ " app at "
             ++ os_path_join (getcwd E) name)])%list ->
  exists template,
    resources E (lower (FRAMEWORK_NAME E) ++ ".templates") "settings.py"
      = Some template /\
    fs w' !! resolve (os_path_join (os_path_join (getcwd E) name) "settings.py")
      = Some (File (template ++ nl ++ "# App-specific settings" ++ nl
                    ++ "APP_NAME = '" ++ name ++ "'" ++ nl)).
Proof.
  intros Hmissing Hrun Htrace.
  destruct (create_app_directory_created E name w r w' Hmissing Hrun Htrace)
    as (Hsteps & _ & _).
  destruct (run_scaffold_steps_ret E name w w' Hsteps)
    as (settings & main_py & app_py & index_py & index_html & logo &
        R1 & _ & _ & _ & _ & _ & Hfs).
  exists settings. split; [exact R1|].
  clear Hrun Htrace Hsteps Hmissing.
  rewrite resolve_join by reflexivity.
  change (resolve "settings.py") with ["settings.py"].
  rewrite Hfs, lookup_union_l'; rewrite (lookup_kmap (_ ++.)), app_tree_settings;
    [reflexivity|eauto].
Qed.

Lemma create_app_directory_settings_witness :
  fs Demo.w_created !! ["home"; "dev"; "myapp"; "settings.py"] =
  Some (File ("<settings.py>" ++ nl ++ "# App-specific settings" ++ nl
              ++ "APP_NAME = '" ++ "myapp" ++ "'" ++ nl)).
Proof.
  assert (H1 : lookup_path (fs Demo.w)
                 (resolve (os_path_join (getcwd Demo.E) "myapp")) = None)
    by (vm_compute; reflexivity).
  assert (H2 : create_app_directory Demo.E "myapp" Demo.w =
               Some (Ret tt, Demo.w_created)) by (vm_compute; reflexivity).
  assert (H3 : trace Demo.w_created = (trace Demo.w ++
    [EPrint ("Created a new " ++ FRAMEWORK_NAME Demo.E ++ " app at "
             ++ os_path_join (getcwd Demo.E) "myapp")])%list)
    by (vm_compute; reflexivity).
  destruct (create_app_directory_settings Demo.E "myapp" Demo.w (Ret tt)
              Demo.w_created H1 H2 H3) as (template & R & Hfile).
  assert (Hp : resolve (os_path_join (os_path_join (getcwd Demo.E) "myapp")
                          "settings.py") = ["home"; "dev"; "myapp"; "settings.py"])
    by (vm_compute; reflexivity).
  rewrite Hp in Hfile. vm_compute in R. injection R as <-. exact Hfile.
Defined.

(** The name is not escaped: a quote in it ends the Python string early. *)
Example app_settings_unescaped :
  app_settings "it's" =
  nl ++ "# App-specific settings" ++ nl ++ "APP_NAME = 'it's'" ++ nl.
Proof. vm_compute. reflexivity. Qed.

(** * Further properties of the port scan *)

Section ScanMore.

Context (E : env).

Local Open Scope Z_scope.

(** Whatever the scan answers, it has probed some first ports from [p]
    on, one per unit of fuel at most. *)
Lemma find_next_available_port_probed fuel : forall p w r w',
  find_next_available_port E fuel p w = Some (r, w') ->
  exists n, (1 <= n <= fuel)%nat /\ w' = log_all (probes p n) w.
Proof.
  induction fuel as [|fuel IH]; intros p w r w' Hrun; [done|].
  rewrite find_next_available_port_step in Hrun.
  destruct (port_status E p) as [[]|e].
  - apply IH in Hrun as (n & Hn & ->). exists (S n). split; [lia|].
    unfold probes. simpl ports_from. simpl map. by rewrite log_all_cons.
  - injection Hrun as <- <-. exists 1%nat. split; [lia|].
    unfold probes. simpl. by rewrite log_all_cons, log_all_nil.
  - injection Hrun as <- <-. exists 1%nat. split; [lia|].
    unfold probes. simpl. by rewrite log_all_cons, log_all_nil.
Qed.

Lemma find_next_available_port_answer_inv fuel : forall p w x,
  find_next_available_port E fuel p w = Some x ->
  exists q, p <= q /\ port_status E q <> Ret true.
Proof.
  induction fuel as [|fuel IH]; intros p w x Hrun; [done|].
  rewrite find_next_available_port_step in Hrun.
  destruct (port_status E p) as [[]|e] eqn:Hp.
  - apply IH in Hrun as (q & Hq & Hfree). exists q. split; [lia|done].
  - exists p. split; [lia|]. by rewrite Hp.
  - exists p. split; [lia|]. by rewrite Hp.
Qed.

End ScanMore.

(** X1. A socket error ends the scan: when every port of [p..q-1]
    answers "in use" and the probe of [q] raises, the scan raises that
    exception, having probed [p], ..., [q] and nothing after. *)
Theorem find_next_available_port_raises (E : env) (p q : Z) (e : exc)
    (fuel : nat) (w : world) :
  (p <= q)%Z ->
  (forall r, (p <= r < q)%Z -> port_status E r = Ret true) ->
  port_status E q = Raise e ->
  (Z.to_nat (q - p) < fuel)%nat ->
  find_next_available_port E fuel p w =
  Some (Raise e, log_all (probes p (S (Z.to_nat (q - p)))) w).
Proof.
  intros Hle Hbusy Hq Hfuel.
  replace fuel with (Z.to_nat (q - p) + S (fuel - S (Z.to_nat (q - p))))%nat by lia.
  rewrite find_next_available_port_skip by (intros r Hr; apply Hbusy; lia).
  rewrite find_next_available_port_step.
  replace (p + Z.of_nat (Z.to_nat (q - p)))%Z with q by lia.
  rewrite Hq, probes_snoc, log_all_snoc.
  by replace (p + Z.of_nat (Z.to_nat (q - p)))%Z with q by lia.
Qed.

Lemma find_next_available_port_raises_witness :
  find_next_available_port Demo.E_full 3 65534 Demo.w =
  Some (Raise (Exc OverflowError "connect_ex(): port must be 0-65535."),
        log_all (probes 65534 3) Demo.w).
Proof.
  apply (find_next_available_port_raises Demo.E_full 65534 65536).
  - lia.
  - intros r Hr. assert (r = 65534 \/ r = 65535)%Z as [-> | ->] by lia;
      reflexivity.
  - reflexivity.
  - simpl. lia.
Defined.

(** X2. The scan answers exactly when some port from [p] on is not
    reported in use; with every port from [p] on busy it goes on for
    ever, whatever the fuel. *)
Theorem find_next_available_port_answers_iff (E : env) (p : Z) (w : world) :
  (exists fuel x, find_next_available_port E fuel p w = Some x) <->
  (exists q, (p <= q)%Z /\ port_status E q <> Ret true).
Proof.
  split.
  - intros (fuel & x & Hrun). by eapply find_next_available_port_answer_inv.
  - intros (q & Hle & Hq).
    destruct (find_next_available_port_answers E (Z.to_nat (q - p)) p q w)
      as (r & w' & Hrun); [done..|].
    by exists (S (Z.to_nat (q - p))), (r, w').
Qed.

(** X3. With the port range of the socket layer (a port outside 0..65535
    is refused with an exception before any connection is tried), the
    scan from [p] always ends, after at most [65537 - p] probes (one
    probe when [p] is above the range). *)
Theorem find_next_available_port_bounded (E : env) (p : Z) (w : world) :
  (forall r, ~ (0 <= r <= 65535)%Z -> exists e, connect_ex E r = Raise e) ->
  exists r n,
    (1 <= n <= S (Z.to_nat (65536 - p)))%nat /\
    find_next_available_port E (S (Z.to_nat (65536 - p))) p w =
    Some (r, log_all (probes p n) w).
Proof.
  intros Hrange.
  destruct (Hrange (Z.max p 65536)) as [e He]; [lia|].
  destruct (find_next_available_port_answers E (Z.to_nat (Z.max p 65536 - p))
              p (Z.max p 65536) w) as (r & w' & Hrun); [lia|done| |].
  { unfold port_status. by rewrite He. }
  replace (Z.to_nat (Z.max p 65536 - p)) with (Z.to_nat (65536 - p)) in Hrun by lia.
  destruct (find_next_available_port_probed E _ _ _ _ _ Hrun) as (n & Hn & ->).
  by exists r, n.
Qed.

Lemma find_next_available_port_bounded_witness :
  exists r n,
    (1 <= n <= S (Z.to_nat (65536 - 65534)))%nat /\
    find_next_available_port Demo.E_full (S (Z.to_nat (65536 - 65534))) 65534 Demo.w =
    Some (r, log_all (probes 65534 n) Demo.w).
Proof.
  apply (find_next_available_port_bounded Demo.E_full 65534 Demo.w).
  intros r Hr. simpl.
  destruct (0 <=? r)%Z eqn:H0; destruct (r <=? 65535)%Z eqn:H1; simpl; eauto.
  exfalso. apply Hr. lia.
Defined.

(** * Further properties of the server launch *)

Section ServerMore.

Context (E : env).

(** A handler that only prints lets no caught exception through. *)
Lemma try_except_print_raise (body : M unit) catches (msg : exc -> string)
    w e w' :
  try_except body catches (fun e => print (msg e)) w = Some (Raise e, w') ->
  catches e = false /\ body w = Some (Raise e, w').
Proof.
  unfold try_except. destruct (body w) as [[[[]|e0] w0]|]; [done| |done].
  destruct (catches e0) eqn:Hc; [done|]. by intros [= <- <-].
Qed.

End ServerMore.

(** X4. When the port is in use and the user accepts, the server goes to
    the first free port above the requested one: the scan starts at
    [port + 1], and with [q] the first free port from there the run
    starts [uvicorn ... --port q] and opens [http://localhost:q]. *)
Theorem run_uvicorn_next_port (E : env) (fuel : nat) (port q : Z) (w : world)
    (reply : string) (rest : list string) :
  port_status E port = Ret true ->
  stdin w = reply :: rest ->
  lower (strip reply) = "y" ->
  first_free E (port + 1) q ->
  (Z.to_nat (q - (port + 1)) < fuel)%nat ->
  fault E (OpPopen ["uvicorn"; "app:app"; "--reload"; "--port"; str_int q]) = None ->
  fault E (OpBrowser ("http://localhost:" ++ str_int q)) = None ->
  run_uvicorn E fuel port w =
  Some (Ret tt,
        {| fs := fs w; stdin := rest;
           trace := trace w ++
             [EConnect port;
              EPrint ("Port " ++ str_int port ++ " is already in use.");
              EInput ("Do you want to use the next available port (starting from "
                      ++ str_int (port + 1) ++ ")? (y/n): ")] ++
             probes (port + 1) (S (Z.to_nat (q - (port + 1)))) ++
             [EPrint ("Using port " ++ str_int q ++ " instead.");
              EPrint ("Starting Uvicorn on port " ++ str_int q ++ "...");
              EPopen ["uvicorn"; "app:app"; "--reload"; "--port"; str_int q];
              EPrint ("Opening http://localhost:" ++ str_int q
                      ++ " in your default browser");
              EBrowser ("http://localhost:" ++ str_int q)] |}).
Proof.
  intros Hport Hin Hy (Hle & Hq & Hbusy) Hfuel Hpopen Hbrowser.
  assert (Hscan : forall w0,
    find_next_available_port E fuel (port + 1) w0 =
    Some (Ret q, log_all (probes (port + 1) (S (Z.to_nat (q - (port + 1))))) w0)).
  { intros w0.
    replace fuel with (Z.to_nat (q - (port + 1))
                       + S (fuel - S (Z.to_nat (q - (port + 1)))))%nat by lia.
    rewrite find_next_available_port_skip by (intros r Hr; apply Hbusy; lia).
    rewrite find_next_available_port_step.
    replace (port + 1 + Z.of_nat (Z.to_nat (q - (port + 1))))%Z with q by lia.
    rewrite Hq, probes_snoc, log_all_snoc.
    by replace (port + 1 + Z.of_nat (Z.to_nat (q - (port + 1))))%Z with q by lia. }
  rewrite (run_uvicorn_accepted E fuel port w reply rest q _ Hport Hin Hy
             (Hscan _) Hpopen Hbrowser).
  unfold log_all. cbn [fs stdin trace]. by rewrite <- !app_assoc.
Qed.

Section FsFacts.

Context (E : env).

Lemma preserves_fs_ret {A} (a : A) : preserves_fs (ret a).
Proof. by intros w r w' [= <- <-]. Qed.

Lemma preserves_fs_bind {A B} (m : M A) (k : A -> M B) :
  preserves_fs m -> (forall a, preserves_fs (k a)) -> preserves_fs (bind m k).
Proof.
  intros Hm Hk w r w' Hrun. unfold bind in Hrun.
  destruct (m w) as [[[a|e] w1]|] eqn:Hmw; [| |done].
  - rewrite (Hk a _ _ _ Hrun). by eapply Hm.
  - injection Hrun as <- <-. by eapply Hm.
Qed.

Lemma preserves_fs_try_except {A} (body : M A) catches handler :
  preserves_fs body -> (forall e, preserves_fs (handler e)) ->
  preserves_fs (try_except body catches handler).
Proof.
  intros Hb Hh w r w' Hrun. unfold try_except in Hrun.
  destruct (body w) as [[[a|e] w1]|] eqn:Hbw; [| |done].
  - injection Hrun as <- <-. by eapply Hb.
  - destruct (catches e).
    + rewrite (Hh e _ _ _ Hrun). by eapply Hb.
    + injection Hrun as <- <-. by eapply Hb.
Qed.

Lemma preserves_fs_print line : preserves_fs (print line).
Proof. by intros w r w' [= <- <-]. Qed.

Lemma preserves_fs_input prompt : preserves_fs (input prompt).
Proof.
  intros w r w'. unfold input. by destruct (stdin w); intros [= <- <-].
Qed.

Lemma preserves_fs_is_port_in_use port : preserves_fs (is_port_in_use E port).
Proof.
  intros w r w'. unfold is_port_in_use, bind, sock_connect_ex, ret.
  by destruct (connect_ex E port); intros [= <- <-].
Qed.

Lemma preserves_fs_find_next_available_port fuel : forall p,
  preserves_fs (find_next_available_port E fuel p).
Proof.
  induction fuel as [|fuel IH]; intros p; [done|].
  simpl. apply preserves_fs_bind; [apply preserves_fs_is_port_in_use|].
  intros []; [apply IH | apply preserves_fs_ret].
Qed.

Lemma preserves_fs_subprocess_Popen cmd : preserves_fs (subprocess_Popen E cmd).
Proof.
  intros w r w'. unfold subprocess_Popen.
  by destruct (fault E _); intros [= <- <-].
Qed.

Lemma preserves_fs_webbrowser_open url : preserves_fs (webbrowser_open E url).
Proof.
  intros w r w'. unfold webbrowser_open.
  by destruct (fault E _); intros [= <- <-].
Qed.

Lemma run_uvicorn_preserves_fs fuel port : preserves_fs (run_uvicorn E fuel port).
Proof.
  unfold run_uvicorn.
  apply preserves_fs_try_except; [|intros e; apply preserves_fs_print].
  apply preserves_fs_bind; [apply preserves_fs_is_port_in_use|]. intros in_use.
  apply preserves_fs_bind.
  - destruct in_use; [|apply preserves_fs_ret].
    apply preserves_fs_bind; [apply preserves_fs_print|]. intros _.
    apply preserves_fs_bind; [apply preserves_fs_input|]. intros reply. simpl.
    destruct (String.eqb _ _).
    + apply preserves_fs_bind; [apply preserves_fs_find_next_available_port|].
      intros port'. apply preserves_fs_bind; [apply preserves_fs_print|].
      intros _. apply preserves_fs_ret.
    + apply preserves_fs_bind; [apply preserves_fs_print|].
      intros _. apply preserves_fs_ret.
  - intros [port'|]; [|apply preserves_fs_ret].
    apply preserves_fs_bind; [apply preserves_fs_print|]. intros _.
    apply preserves_fs_bind; [apply preserves_fs_subprocess_Popen|].
    intros _. simpl.
    apply preserves_fs_bind; [apply preserves_fs_print|]. intros _.
    apply preserves_fs_webbrowser_open.
Qed.

End FsFacts.

(** X5. When the port is free and the launch itself fails, the browser is
    not opened.  A [CalledProcessError] is reported on one line and the
    function returns normally; an exception of any other class goes up
    to the caller. *)
Theorem run_uvicorn_launch_fails (E : env) (fuel : nat) (port : Z) (w : world)
    (e : exc) :
  port_status E port = Ret false ->
  fault E (OpPopen ["uvicorn"; "app:app"; "--reload"; "--port"; str_int port])
    = Some e ->
  run_uvicorn E fuel port w =
  Some (if isinstance_CalledProcessError e then Ret tt else Raise e,
        {| fs := fs w; stdin := stdin w;
           trace := trace w ++
             [EConnect port;
              EPrint ("Starting Uvicorn on port " ++ str_int port ++ "...");
              EPopen ["uvicorn"; "app:app"; "--reload"; "--port"; str_int port]]
             ++ (if isinstance_CalledProcessError e
                 then [EPrint ("An error occurred while running Uvicorn: "
                               ++ exc_str e)]
                 else []) |}).
Proof.
  intros Hport Hpopen.
  apply port_status_false in Hport as (errno & Hconn & Herrno).
  destruct w as [m sin tr]. run_server.
  rewrite Hconn, Herrno. cbn [fs stdin trace]. rewrite Hpopen.
  destruct (isinstance_CalledProcessError e); cbn [fs stdin trace];
    by rewrite <- !app_assoc.
Qed.

(** X6. When the port is free and the process was started, a failure of
    the browser does not undo the launch: the call to [Popen] is on the
    trace, and the exception of the browser goes up to the caller unless
    it is a [CalledProcessError], which is reported as an error of
    Uvicorn. *)
Theorem run_uvicorn_browser_fails (E : env) (fuel : nat) (port : Z) (w : world)
    (e : exc) :
  port_status E port = Ret false ->
  fault E (OpPopen ["uvicorn"; "app:app"; "--reload"; "--port"; str_int port])
    = None ->
  fault E (OpBrowser ("http://localhost:" ++ str_int port)) = Some e ->
  run_uvicorn E fuel port w =
  Some (if isinstance_CalledProcessError e then Ret tt else Raise e,
        {| fs := fs w; stdin := stdin w;
           trace := trace w ++
             [EConnect port;
              EPrint ("Starting Uvicorn on port " ++ str_int port ++ "...");
              EPopen ["uvicorn"; "app:app"; "--reload"; "--port"; str_int port];
              EPrint ("Opening http://localhost:" ++ str_int port
                      ++ " in your default browser");
              EBrowser ("http://localhost:" ++ str_int port)]
             ++ (if isinstance_CalledProcessError e
                 then [EPrint ("An error occurred while running Uvicorn: "
                               ++ exc_str e)]
                 else []) |}).
Proof.
  intros Hport Hpopen Hbrowser.
  apply port_status_false in Hport as (errno & Hconn & Herrno).
  destruct w as [m sin tr]. run_server.
  rewrite Hconn, Herrno. cbn [fs stdin trace]. rewrite Hpopen.
  cbn [fs stdin trace]. rewrite Hbrowser.
  destruct (isinstance_CalledProcessError e); cbn [fs stdin trace];
    by rewrite <- !app_assoc.
Qed.

(** X7. [run_uvicorn] lets no [CalledProcessError] through, whatever the
    path; and whatever it does, it leaves the file system alone. *)
Theorem run_uvicorn_outcome (E : env) (fuel : nat) (port : Z) (w w' : world)
    (r : res unit) :
  run_uvicorn E fuel port w = Some (r, w') ->
  fs w' = fs w /\
  forall e, r = Raise e -> isinstance_CalledProcessError e = false.
Proof.
  intros Hrun. split; [by eapply run_uvicorn_preserves_fs|].
  intros e ->. unfold run_uvicorn in Hrun.
  by apply try_except_print_raise in Hrun as [Hc _].
Qed.

(** X8. When the port is in use and no answer can be read (end of input),
    the [EOFError] of [input] goes up to the caller: nothing is started
    and nothing is opened. *)
Theorem run_uvicorn_no_answer (E : env) (fuel : nat) (port : Z) (w : world) :
  port_status E port = Ret true ->
  stdin w = [] ->
  run_uvicorn E fuel port w =
  Some (Raise (Exc EOFError "EOF when reading a line"),
        {| fs := fs w; stdin := [];
           trace := trace w ++
             [EConnect port;
              EPrint ("Port " ++ str_int port ++ " is already in use.");
              EInput ("Do you want to use the next available port (starting from "
                      ++ str_int (port + 1) ++ ")? (y/n): ")] |}).
Proof.
  intros Hport Hin. apply port_status_true in Hport.
  destruct w as [m sin tr]. cbn [fs stdin trace] in *. subst sin.
  run_server. rewrite Hport. cbn [fs stdin trace Z.eqb].
  by rewrite <- !app_assoc.
Qed.

Lemma run_uvicorn_next_port_witness :
  run_uvicorn Demo.E 5 8000 (Demo.typing " Y ") =
  Some (Ret tt,
        {| fs := fs (Demo.typing " Y "); stdin := [];
           trace := trace (Demo.typing " Y ") ++
             [EConnect 8000;
              EPrint ("Port " ++ str_int 8000 ++ " is already in use.");
              EInput ("Do you want to use the next available port (starting from "
                      ++ str_int (8000 + 1) ++ ")? (y/n): ")] ++
             probes (8000 + 1) (S (Z.to_nat (8001 - (8000 + 1)))) ++
             [EPrint ("Using port " ++ str_int 8001 ++ " instead.");
              EPrint ("Starting Uvicorn on port " ++ str_int 8001 ++ "...");
              EPopen ["uvicorn"; "app:app"; "--reload"; "--port"; str_int 8001];
              EPrint ("Opening http://localhost:" ++ str_int 8001
                      ++ " in your default browser");
              EBrowser ("http://localhost:" ++ str_int 8001)] |}).
Proof.
  apply (run_uvicorn_next_port Demo.E 5 8000 8001 (Demo.typing " Y ") " Y " []).
  - reflexivity.
  - reflexivity.
  - reflexivity.
  - split; [lia|]. split; [reflexivity|]. intros r Hr. lia.
  - simpl. lia.
  - reflexivity.
  - reflexivity.
Defined.

Lemma run_uvicorn_launch_fails_witness :
  run_uvicorn Cases.E_no_uvicorn 0 5000 Demo.w =
  Some (Raise (Exc OSError "[Errno 2] No such file or directory: 'uvicorn'"),
        {| fs := fs Demo.w; stdin := [];
           trace := [EConnect 5000; EPrint "Starting Uvicorn on port 5000...";
                     EPopen ["uvicorn"; "app:app"; "--reload"; "--port"; "5000"]] |}).
Proof.
  apply (run_uvicorn_launch_fails Cases.E_no_uvicorn 0 5000 Demo.w
           (Exc OSError "[Errno 2] No such file or directory: 'uvicorn'"));
    reflexivity.
Defined.

Lemma run_uvicorn_browser_fails_witness :
  run_uvicorn Cases.E_no_browser 0 5000 Demo.w =
  Some (Raise (Exc RuntimeError "Browser error"),
        {| fs := fs Demo.w; stdin := [];
           trace := [EConnect 5000; EPrint "Starting Uvicorn on port 5000...";
                     EPopen ["uvicorn"; "app:app"; "--reload"; "--port"; "5000"];
                     EPrint "Opening http://localhost:5000 in your default browser";
                     EBrowser "http://localhost:5000"] |}).
Proof.
  apply (run_uvicorn_browser_fails Cases.E_no_browser 0 5000 Demo.w
           (Exc RuntimeError "Browser error")); reflexivity.
Defined.

Lemma run_uvicorn_outcome_witness :
  fs Demo.w = fs Demo.w /\
  forall e, @Raise unit (Exc RuntimeError "Browser error") = Raise e ->
            isinstance_CalledProcessError e = false.
Proof.
  apply (run_uvicorn_outcome Cases.E_no_browser 0 5000 Demo.w
           {| fs := fs Demo.w; stdin := [];
              trace := [EConnect 5000; EPrint "Starting Uvicorn on port 5000...";
                        EPopen ["uvicorn"; "app:app"; "--reload"; "--port"; "5000"];
                        EPrint "Opening http://localhost:5000 in your default browser";
                        EBrowser "http://localhost:5000"] |}
           (Raise (Exc RuntimeError "Browser error"))).
  reflexivity.
Defined.

Lemma run_uvicorn_no_answer_witness :
  run_uvicorn Demo.E 5 8000 Demo.w =
  Some (Raise (Exc EOFError "EOF when reading a line"),
        {| fs := fs Demo.w; stdin := [];
           trace := trace Demo.w ++
             [EConnect 8000;
              EPrint ("Port " ++ str_int 8000 ++ " is already in use.");
              EInput ("Do you want to use the next available port (starting from "
                      ++ str_int (8000 + 1) ++ ")? (y/n): ")] |}).
Proof.
  apply (run_uvicorn_no_answer Demo.E 5 8000 Demo.w); reflexivity.
Defined.

(** * Further properties of the scaffolding *)

Section ConfinedFacts.

Context (E : env).








Lemma importlib_import_module_preserves_fs module :
  preserves_fs (importlib_import_module E module ;; ret tt).
Proof.
  intros w r w'. unfold bind, importlib_import_module, ret.
  by destruct (fault E _); intros [= <- <-].
Qed.



End ConfinedFacts.


Section RetryFacts.

Context (E : env).

Lemma write_file_keeps_dirs (path : string) (new : option string -> string)
    (m m' : gmap (list string) node) (p : list string) :
  write_file path new m = Ret m' -> m !! p = Some Dir -> m' !! p = Some Dir.
Proof.
  intros Hw Hp. pose proof (write_file_ret _ _ _ _ Hw) as ->.
  rewrite lookup_insert_ne; [done|]. intros <-.
  unfold write_file in Hw. destruct (resolve path) as [|c q]; [done|].
  destruct (lookup_path m (removelast (c :: q))) as [[|?]|]; [|done..].
  by rewrite Hp in Hw.
Qed.

Lemma os_makedirs_keeps_dirs path : keeps_dirs (os_makedirs E path).
Proof.
  intros w r w' p Hrun Hp. unfold os_makedirs in Hrun.
  destruct (fault E _); [by injection Hrun as <- <-|].
  destruct (makedirs_from _ _ _ _) as [r0 m] eqn:Hm.
  injection Hrun as <- <-. cbn [fs set_fs].
  eapply lookup_weaken; [done|]. by eapply makedirs_from_subseteq.
Qed.

Lemma shutil_copyfile_keeps_dirs module file dst :
  keeps_dirs (shutil_copyfile E module file dst).
Proof.
  intros w r w' p Hrun Hp. unfold shutil_copyfile in Hrun.
  destruct (fault E _); [by injection Hrun as <- <-|].
  destruct (resources E module file); [|by injection Hrun as <- <-].
  destruct (write_file _ _ _) as [m|e] eqn:Hm; injection Hrun as <- <-; [|done].
  cbn [fs set_fs]. by eapply write_file_keeps_dirs.
Qed.

Lemma append_text_keeps_dirs path data : keeps_dirs (append_text E path data).
Proof.
  intros w r w' p Hrun Hp. unfold append_text in Hrun.
  destruct (fault E _); [by injection Hrun as <- <-|].
  destruct (write_file _ _ _) as [m|e] eqn:Hm; injection Hrun as <- <-; [|done].
  cbn [fs set_fs]. by eapply write_file_keeps_dirs.
Qed.

Lemma unchanged_keeps_dirs (s : M unit) : preserves_fs s -> keeps_dirs s.
Proof. intros Hs w r w' p Hrun Hp. by rewrite (Hs _ _ _ Hrun). Qed.

Lemma scaffold_steps_keep_dirs name : Forall keeps_dirs (scaffold_steps E name).
Proof.
  unfold scaffold_steps.
  repeat apply Forall_cons_2; try apply Forall_nil_2;
    auto using os_makedirs_keeps_dirs, shutil_copyfile_keeps_dirs,
      append_text_keeps_dirs.
  - apply unchanged_keeps_dirs, importlib_import_module_preserves_fs.
  - apply unchanged_keeps_dirs, preserves_fs_print.
Qed.

Lemma run_steps_keep_dirs steps : forall w r w' (p : list string),
  Forall keeps_dirs steps ->
  run_steps steps w = Some (r, w') ->
  fs w !! p = Some Dir -> fs w' !! p = Some Dir.
Proof.
  induction steps as [|s steps IH]; intros w r w' p Hsteps Hrun Hp.
  - by injection Hrun as <- <-.
  - inversion Hsteps as [|? ? Hs Hrest]; subst.
    simpl in Hrun. unfold bind in Hrun.
    destruct (s w) as [[[[]|e] w1]|] eqn:Hsw; [| |done].
    + eapply IH; [done..|]. by eapply Hs.
    + injection Hrun as <- <-. by eapply Hs.
Qed.

(** What a run leaves when, the target being absent, it got past the
    creation of the directory. *)
Lemma create_app_directory_leaves_directory name w w1 r w' :
  lookup_path (fs w) (resolve (os_path_join (getcwd E) name)) = None ->
  os_makedirs E (os_path_join (getcwd E) name) w = Some (Ret tt, w1) ->
  create_app_directory E name w = Some (r, w') ->
  fs w' !! resolve (os_path_join (getcwd E) name) = Some Dir.
Proof.
  intros Hmissing Hmk Hrun.
  assert (Hne : resolve (os_path_join (getcwd E) name) <> []).
  { intros Hd. rewrite Hd in Hmissing. discriminate Hmissing. }
  assert (Hdir : fs w1 !! resolve (os_path_join (getcwd E) name) = Some Dir).
  { rewrite (os_makedirs_ret _ _ _ _ Hmk). cbn [fs set_fs].
    clear Hrun Hmk Hmissing. revert Hne.
    generalize (resolve (os_path_join (getcwd E) name)). intros d Hne.
    pose proof (with_dirs_lookup_prefix d [] (fs w) (length d)) as Hd.
    rewrite firstn_all in Hd. apply Hd. destruct d; [done|simpl; lia]. }
  rewrite create_app_directory_steps in Hrun. unfold bind in Hrun.
  rewrite os_path_exists_eval, bool_decide_eq_false_2 in Hrun
    by (rewrite Hmissing; by intros [? ?]).
  unfold try_except in Hrun.
  pose proof (scaffold_steps_keep_dirs name) as Hkeep.
  unfold scaffold_steps in Hrun, Hkeep. cbn [run_steps] in Hrun.
  inversion Hkeep as [|? ? _ Hrest]; subst.
  unfold bind at 1 in Hrun. rewrite Hmk in Hrun.
  match type of Hrun with
  | match ?body with _ => _ end = _ => destruct body as [[[[]|e] w2]|] eqn:Hsteps
  end; [| |done].
  - injection Hrun as <- <-. by eapply (run_steps_keep_dirs _ _ _ _ _ Hrest Hsteps).
  - assert (Hfs : fs w' = fs w2).
    { destruct (isinstance_Exception e); by injection Hrun as <- <-. }
    rewrite Hfs. by eapply (run_steps_keep_dirs _ _ _ _ _ Hrest Hsteps).
Qed.

End RetryFacts.

(** X10. A run that got past the creation of the directory cannot be
    repeated: whether it then succeeded or failed half-way, the directory
    it left makes a second call with the same name (in the same working
    directory, whatever else has changed in the environment) print
    [app name already exists at this directory] and do nothing else. *)
Theorem create_app_directory_retry_refused (E E' : env) (name : string)
    (w w1 w' : world) (r : res unit) :
  lookup_path (fs w) (resolve (os_path_join (getcwd E) name)) = None ->
  os_makedirs E (os_path_join (getcwd E) name) w = Some (Ret tt, w1) ->
  create_app_directory E name w = Some (r, w') ->
  getcwd E' = getcwd E ->
  create_app_directory E' name w' =
  Some (Ret tt,
        {| fs := fs w'; stdin := stdin w';
           trace := trace w' ++
             [EPrint "app name already exists at this directory"] |}).
Proof.
  intros Hmissing Hmk Hrun Hcwd.
  pose proof (create_app_directory_leaves_directory E name w w1 r w'
                Hmissing Hmk Hrun) as Hdir.
  assert (Hne : resolve (os_path_join (getcwd E) name) <> []).
  { intros Hd. rewrite Hd in Hmissing. discriminate Hmissing. }
  unfold create_app_directory, bind. rewrite os_path_exists_eval, Hcwd.
  rewrite bool_decide_eq_true_2; [done|].
  destruct (resolve (os_path_join (getcwd E) name)); [done|].
  simpl. rewrite Hdir. eauto.
Qed.



Lemma create_app_directory_retry_refused_witness :
  create_app_directory Demo.E "myapp" Cases.w_failed =
  Some (Ret tt,
        {| fs := fs Cases.w_failed; stdin := stdin Cases.w_failed;
           trace := trace Cases.w_failed ++
             [EPrint "app name already exists at this directory"] |}).
Proof.
  apply (create_app_directory_retry_refused Demo.E_failing Demo.E "myapp"
           Demo.w Cases.w_directory Cases.w_failed (Ret tt)).
  - vm_compute. reflexivity.
  - vm_compute. reflexivity.
  - vm_compute. reflexivity.
  - reflexivity.
Defined.


(** * When the scaffolding succeeds *)

Section SuccessFacts.

Context (E : env).







End SuccessFacts.




Section Succeeds.

Context (E : env).





End Succeeds.



(** * The command line *)

Section MainFacts.

Context (E : env).

Lemma startswith_dash_not_port a :
  startswith_char "-" a = false -> String.eqb a "--port" = false.
Proof.
  intros Ha. apply String.eqb_neq. intros ->. discriminate Ha.
Qed.

(** A plain word joins the positional arguments. *)
Lemma scan_args_word a rest positionals port :
  startswith_char "-" a = false ->
  scan_args (a :: rest) false positionals port =
  scan_args rest false (positionals ++ [a])%list port.
Proof.
  intros Ha. cbn [scan_args].
  by rewrite (startswith_dash_not_port _ Ha), Ha.
Qed.

Lemma scan_args_words words : forall positionals port,
  Forall (fun a => startswith_char "-" a = false) words ->
  scan_args words false positionals port = Scanned (positionals ++ words)%list port.
Proof.
  induction words as [|a words IH]; intros positionals port Hwords.
  - simpl. by rewrite app_nil_r.
  - inversion Hwords as [|? ? Ha Hrest]; subst.
    rewrite scan_args_word by done. rewrite IH by done.
    by rewrite <- app_assoc.
Qed.

(** [str] of a natural number reads back as that number. *)
Lemma uint_of_string_str_int n :
  (0 <= n)%Z ->
  exists d, NilZero.uint_of_string (str_int n) = Some d /\ Z.of_uint d = n.
Proof.
  intros Hn. unfold str_int. destruct n as [|p|p]; [| |lia].
  - exists Decimal.zero. split; reflexivity.
  - exists (Pos.to_uint p). split.
    + apply NilZero.usu. apply Unsigned.to_uint_nonnil.
    + unfold Z.of_uint. by rewrite Unsigned.of_to.
Qed.



Lemma parse_args_scanned argv w :
  parse_args argv w =
  match scan_args argv false [] 8000 with
  | Scanned [c] p => Some (Ret (Args c None p), w)
  | Scanned [c; n] p => Some (Ret (Args c (Some n) p), w)
  | Scanned _ _ => Some (Raise SystemExit_2, w)
  | Usage => Some (Raise SystemExit_2, w)
  | Unmodelled => None
  end.
Proof.
  unfold parse_args.
  destruct (scan_args argv false [] 8000) as [[|c [|n [|x xs]]] p| |]; reflexivity.
Qed.

End MainFacts.

(** C7. The parser knows the two subcommands.  [new <name>] with a name
    that is not empty calls [create_app_directory <name>]; [new] alone, or
    with an empty name, prints the usage line and does nothing else;
    [run] and [run --port N] call [run_uvicorn] with port 8000 and [N];
    any other command word prints the invalid-command line and does
    nothing else. *)
Theorem main_dispatch (E : env) (fuel : nat) (w : world) :
  (forall arg, arg <> "" -> startswith_char "-" arg = false ->
     main E fuel ["new"; arg] w = create_app_directory E arg w)
  /\ main E fuel ["new"] w =
       Some (Ret tt, log (EPrint ("Please provide a name for the new app. Usage: '"
                                  ++ lower (FRAMEWORK_NAME E) ++ " new <name>'")) w)
  /\ main E fuel ["new"; ""] w =
       Some (Ret tt, log (EPrint ("Please provide a name for the new app. Usage: '"
                                  ++ lower (FRAMEWORK_NAME E) ++ " new <name>'")) w)
  /\ main E fuel ["run"] w = run_uvicorn E fuel 8000 w
  /\ (forall n, (0 <= n)%Z ->
        main E fuel ["run"; "--port"; str_int n] w = run_uvicorn E fuel n w)
  /\ (forall c, c <> "new" -> c <> "run" -> startswith_char "-" c = false ->
        main E fuel [c] w =
        Some (Ret tt,
              log (EPrint ("Invalid command. Use '" ++ lower (FRAMEWORK_NAME E)
                           ++ " new <name>' to create a new app or '"
                           ++ lower (FRAMEWORK_NAME E)
                           ++ " run' to run the development server.")) w)).
Proof.
  split; [|split; [|split; [|split; [|split]]]].
  - intros arg Hne Hdash. unfold main, parse_args.
    rewrite (scan_args_word "new") by reflexivity.
    rewrite scan_args_word by exact Hdash.
    cbn [scan_args app bind ret]. unfold bind, ret. cbn [command name truthy].
    apply String.eqb_neq in Hne. rewrite Hne. reflexivity.
  - reflexivity.
  - reflexivity.
  - reflexivity.
  - intros n Hn. destruct (uint_of_string_str_int n Hn) as (d & Hd & <-).
    unfold main, parse_args.
    rewrite (scan_args_word "run") by reflexivity.
    cbn [scan_args app]. cbn [String.eqb Ascii.eqb Bool.eqb]. rewrite Hd.
    reflexivity.
  - intros c Hnew Hrun Hdash. unfold main, parse_args.
    rewrite scan_args_word by exact Hdash.
    cbn [scan_args app]. unfold bind, ret. cbn [command].
    apply String.eqb_neq in Hnew, Hrun. rewrite Hnew, Hrun. reflexivity.
Qed.

Lemma main_dispatch_witness :
  main Demo.E 0 ["new"; "myapp"] Demo.w = create_app_directory Demo.E "myapp" Demo.w
  /\ main Demo.E 0 ["run"; "--port"; str_int 5000] Demo.w =
     run_uvicorn Demo.E 0 5000 Demo.w
  /\ main Demo.E 0 ["serve"] Demo.w =
     Some (Ret tt,
           log (EPrint ("Invalid command. Use '" ++ lower (FRAMEWORK_NAME Demo.E)
                        ++ " new <name>' to create a new app or '"
                        ++ lower (FRAMEWORK_NAME Demo.E)
                        ++ " run' to run the development server.")) Demo.w).
Proof.
  destruct (main_dispatch Demo.E 0 Demo.w) as (Hnew & _ & _ & _ & Hport & Hother).
  split; [|split].
  - apply Hnew; [discriminate|reflexivity].
  - apply Hport. lia.
  - apply Hother; [discriminate|discriminate|reflexivity].
Defined.

(** With an empty name [main] does not call [create_app_directory]: it
    prints the usage line, where [create_app_directory ""] would have
    found the working directory itself and said that the name exists. *)
Lemma main_new_empty_name_differs :
  main Demo.E 0 ["new"; ""] Demo.w <> create_app_directory Demo.E "" Demo.w.
Proof. vm_compute. intros H. discriminate H. Qed.

(** X16. [main] hands a name to [create_app_directory] exactly when the
    name is not empty: for every word after [new], the empty one prints
    the usage line as [new] alone does, and any other one is passed on
    unchanged. *)
Theorem main_new_empty_name (E : env) (fuel : nat) (w : world) (arg : string) :
  startswith_char "-" arg = false ->
  main E fuel ["new"; arg] w =
  if String.eqb arg "" then main E fuel ["new"] w
  else create_app_directory E arg w.
Proof.
  intros Hdash. destruct (String.eqb_spec arg "") as [->|Hne].
  - reflexivity.
  - unfold main, parse_args.
    rewrite (scan_args_word "new") by reflexivity.
    rewrite scan_args_word by exact Hdash.
    cbn [scan_args app bind ret]. unfold bind, ret. cbn [command name truthy].
    apply String.eqb_neq in Hne. rewrite Hne. reflexivity.
Qed.

Lemma main_new_empty_name_witness :
  main Demo.E 0 ["new"; ""] Demo.w = main Demo.E 0 ["new"] Demo.w
  /\ main Demo.E 0 ["new"; "myapp"] Demo.w =
     create_app_directory Demo.E "myapp" Demo.w.
Proof.
  split.
  - apply (main_new_empty_name Demo.E 0 Demo.w ""). reflexivity.
  - apply (main_new_empty_name Demo.E 0 Demo.w "myapp"). reflexivity.
Defined.

(** X12. A command line that argparse rejects ends the program with exit
    status 2 before anything is done: no command word, more than two
    words, or [--port] without a value.  Nothing is printed on the
    standard output, no file is touched, no port is probed. *)
Theorem main_usage_error (E : env) (fuel : nat) (words : list string) (w : world) :
  Forall (fun a => startswith_char "-" a = false) words ->
  (length words <> 1%nat -> length words <> 2%nat ->
   main E fuel words w = Some (Raise SystemExit_2, w))
  /\ main E fuel (words ++ ["--port"]) w = Some (Raise SystemExit_2, w).
Proof.
  intros Hwords. split.
  - intros H1 H2. unfold main, bind.
    rewrite parse_args_scanned, scan_args_words by done. simpl app.
    by destruct words as [|c [|n [|x xs]]].
  - unfold main, bind. rewrite parse_args_scanned.
    assert (Hscan : forall positionals port,
              scan_args (words ++ ["--port"]) false positionals port = Usage).
    { clear w. induction words as [|a words IH]; intros positionals port.
      - reflexivity.
      - inversion Hwords as [|? ? Ha Hrest]; subst.
        simpl app. rewrite scan_args_word by done. by apply IH. }
    by rewrite Hscan.
Qed.

Lemma main_usage_error_witness :
  main Demo.E 0 [] Demo.w = Some (Raise SystemExit_2, Demo.w)
  /\ main Demo.E 0 ["run"; "--port"] Demo.w = Some (Raise SystemExit_2, Demo.w).
Proof.
  split.
  - apply (main_usage_error Demo.E 0 [] Demo.w); [constructor|discriminate..].
  - apply (main_usage_error Demo.E 0 ["run"] Demo.w). by repeat constructor.
Defined.



(** * The answer to the prompt *)

Section ReplyFacts.

Lemma append_String' c (a b : string) : String c a ++ b = String c (a ++ b).
Proof. reflexivity. Qed.

Lemma append_empty_r (a : string) : a ++ "" = a.
Proof. induction a as [|c a IH]; [done|]. by rewrite append_String', IH. Qed.

Lemma lstrip_blank l s : blank l = true -> lstrip (l ++ s) = lstrip s.
Proof.
  induction l as [|c l IH]; [done|]. simpl. intros Hl.
  apply andb_true_iff in Hl as [Hc Hl]. rewrite ?append_String'. simpl.
  rewrite Hc. by apply IH.
Qed.

Lemma lstrip_split s : exists l, s = l ++ lstrip s /\ blank l = true.
Proof.
  induction s as [|c s (l & Hs & Hl)].
  - by exists "".
  - simpl. destruct (isspace c) eqn:Hc.
    + exists (String c l). rewrite append_String', <- Hs. simpl.
      by rewrite Hc, Hl.
    + by exists "".
Qed.

Lemma rstrip_blank r : blank r = true -> rstrip r = "".
Proof.
  induction r as [|c r IH]; [done|]. simpl. intros Hr.
  apply andb_true_iff in Hr as [Hc Hr]. by rewrite (IH Hr), Hc.
Qed.

Lemma rstrip_split s : exists r, s = rstrip s ++ r /\ blank r = true.
Proof.
  induction s as [|c s (r & Hs & Hr)].
  - by exists "".
  - simpl. destruct (rstrip s) as [|c' t] eqn:Ht.
    + destruct (isspace c) eqn:Hc.
      * exists (String c s). split; [done|]. simpl. rewrite Hc.
        rewrite Hs. simpl. done.
      * exists s. split; [done|]. by rewrite Hs.
    + exists r. rewrite !append_String'. split; [|done].
      f_equal. by rewrite Hs at 1.
Qed.

Lemma lstrip_nonspace c s : isspace c = false -> lstrip (String c s) = String c s.
Proof. intros Hc. simpl. by rewrite Hc. Qed.

Lemma rstrip_last c r :
  isspace c = false -> blank r = true -> rstrip (String c r) = String c "".
Proof. intros Hc Hr. simpl. by rewrite (rstrip_blank _ Hr), Hc. Qed.

(** The only letters that [lower] sends to [y]. *)
Lemma lower_char_y c : lower_char c = "y"%char -> c = "y"%char \/ c = "Y"%char.
Proof.
  destruct c as [[] [] [] [] [] [] [] []]; vm_compute; intros H;
    first [discriminate H | by left | by right].
Qed.

Lemma lower_y t : lower t = "y" -> t = "y" \/ t = "Y".
Proof.
  destruct t as [|c [|c' t]]; [done| |done].
  simpl. intros [= Hc]. destruct (lower_char_y c Hc) as [-> | ->]; auto.
Qed.

End ReplyFacts.

(** X14. The replies that accept the next port are exactly [y] and [Y]
    with whitespace around: [reply.strip().lower() == 'y'] holds if and
    only if the reply is a run of whitespace, then the letter, then a run
    of whitespace. *)
Theorem reply_accepts (reply : string) :
  lower (strip reply) = "y" <->
  exists l r, blank l = true /\ blank r = true /\
    (reply = l ++ "y" ++ r \/ reply = l ++ "Y" ++ r).
Proof.
  split.
  - intros Hy. apply lower_y in Hy.
    destruct (lstrip_split reply) as (l & Hl & Hbl).
    destruct (rstrip_split (lstrip reply)) as (r & Hr & Hbr).
    exists l, r. split; [done|]. split; [done|].
    unfold strip in Hy. rewrite Hl, Hr.
    destruct Hy as [-> | ->]; [by left|by right].
  - intros (l & r & Hl & Hr & [-> | ->]); unfold strip;
      rewrite (lstrip_blank _ _ Hl), append_String', lstrip_nonspace
        by reflexivity;
      rewrite rstrip_last by (reflexivity || exact Hr); reflexivity.
Qed.
